(** * bongo: cascade propagation, field-path projection and diff tracking

    A shallow embedding of the cascade subsystem of the bongo ODM
    (cascade.go, the Save / DeleteDocument paths of collection.go and
    ResultSet.Next of resultset.go), with the properties its design
    document states about it.

    Conventions
    - Go [interface{}] / BSON data is the tree type [value]; [bson.M] and
      [map[string]interface{}] are [gmap string _].
    - The MongoDB driver is the type class [Driver]: the orchestrators are
      written once, against any driver, by explicit state passing.
    - A Go [error] is [option error] ([None] is [nil]); a [panic] is an
      outcome of its own, never an error result. *)

From stdpp Require Import base strings list gmap.
From Stdlib Require Import Ascii ZArith Lia.

Set Warnings "-register-all".
Set Default Proof Using "Type".

Open Scope Z_scope.

(** ** Data model *)

(** Go / BSON values as the cascade code handles them. *)
Inductive value :=
| VNil
| VStr (s : string)
| VInt (z : Z)
| VObjectID (hex : string)
| VDoc (fs : list (string * value))
| VArr (l : list value).

Lemma value_eq_dec : ∀ x y : value, {x = y} + {x ≠ y}.
Proof.
  fix IH 1. intros x y. decide equality.
  - apply String.string_dec.
  - apply Z.eq_dec.
  - apply String.string_dec.
  - apply List.list_eq_dec. intros [a b] [c d].
    destruct (String.string_dec a c); [|right; congruence].
    destruct (IH b d); [left|right]; congruence.
  - apply (List.list_eq_dec IH).
Defined.

#[global] Instance value_eq_decision : EqDecision value := value_eq_dec.

(** [errors.New msg] and driver errors alike. *)
Definition error := string.

(** [bson.M]. *)
Abbreviation bsonM := (gmap string value).

(** [*Collection]: the collection handle (its connection is the driver). *)
Record Collection := mkCollection {
  Name : string;
  Database : string;
}.

#[global] Instance Collection_eq_decision : EqDecision Collection.
Proof. solve_decision. Defined.

#[global] Instance Collection_countable : Countable Collection.
Proof.
  refine (inj_countable' (λ c, (Name c, Database c))
            (λ p, mkCollection (fst p) (snd p)) _).
  by intros [].
Defined.

(** Relation types: [const ( REL_MANY = iota; REL_ONE = iota )]. *)
Definition REL_MANY : Z := 0.
Definition REL_ONE : Z := 1.

Record ReferenceField := mkReferenceField {
  BsonName : string;
  Value : value;
}.

(** A document as the cascade code sees it: the result of [GetID()], the
    struct fields visible to reflection under their Go names, and the
    optional capabilities found by interface assertion ([None]: the type
    does not implement the interface).  [CascadeConfig] carries a document
    again ([conf_Instance], possibly [nil]), hence the mutual definition. *)
Inductive Document := mkDocument {
  GetID : value;
  fields : list (string * value);
  GetCascade : option (Collection → list CascadeConfig);
  AfterFind : option (Collection → option error);
}
with CascadeConfig := mkCascadeConfig {
  conf_Collection : Collection;
  RelType : Z;
  ThroughProp : string;
  Query : bsonM;
  OldQuery : bsonM;
  Nest : bool;
  Properties : list string;
  Data : value;
  conf_Instance : option Document;
  RemoveOnly : bool;
  ReferenceQuery : list ReferenceField;
}.

(** [conf.ReferenceQuery = rq] through the config pointer. *)
Definition set_ReferenceQuery (conf : CascadeConfig) (rq : list ReferenceField)
  : CascadeConfig :=
  mkCascadeConfig (conf_Collection conf) (RelType conf) (ThroughProp conf)
    (Query conf) (OldQuery conf) (Nest conf) (Properties conf) (Data conf)
    (conf_Instance conf) (RemoveOnly conf) rq.

(** ** The store driver *)

(** The update documents the cascade code builds; each constructor is the
    one-key outer map with that operator, its argument the operand. *)
Inductive update :=
| U_set (m : bsonM)                      (* {"$set": m}, m a map *)
| U_set_data (data : value)              (* {"$set": data}, data as supplied *)
| U_pull (m : gmap string bsonM)         (* {"$pull": m} *)
| U_push (m : bsonM).                    (* {"$push": m} *)

(** [*mongo.UpdateResult]. *)
Record UpdateResult := mkUpdateResult {
  MatchedCount : Z;
  ModifiedCount : Z;
}.

Definition UpdateResult_zero : UpdateResult := mkUpdateResult 0 0.

(** What [Collection.Find] hands back: the documents its cursor yields. *)
Abbreviation Cursor := (list bsonM).

(** [conf.Collection.Collection().UpdateMany(ctx, query, update)] and
    [conf.Collection.Find(query)] over a store state [St]. *)
Class Driver (St : Type) := {
  UpdateMany : Collection → bsonM → update → St → (UpdateResult * option error) * St;
  Find : Collection → bsonM → St → (Cursor * option error) * St;
}.

(** ** cascade.go *)

Section Cascade.
Context {St : Type} {D : Driver St}.

(** [q := bson.M{}; for _, f := range conf.ReferenceQuery { q[f.BsonName] = f.Value }] *)
Definition reference_q (rq : list ReferenceField) : bsonM :=
  foldl (λ q f, <[BsonName f := Value f]> q) ∅ rq.

(** [{"$set": {ThroughProp: nil}}], or [{"$set": {p: nil}}] over
    [Properties] when there is no through prop. *)
Definition nullify_update (conf : CascadeConfig) : update :=
  if (0 <? String.length (ThroughProp conf))%nat
  then U_set {[ ThroughProp conf := VNil ]}
  else U_set (foldl (λ m p, <[p := VNil]> m) ∅ (Properties conf)).

(** Runs a cascaded delete operation with one configuration. *)
Definition cascadeDeleteWithConfig (conf : CascadeConfig) (s : St)
  : (UpdateResult * option error) * St :=
  if RelType conf =? REL_ONE then
    UpdateMany (conf_Collection conf) (Query conf) (nullify_update conf) s
  else if RelType conf =? REL_MANY then
    let q := reference_q (ReferenceQuery conf) in
    UpdateMany (conf_Collection conf) (Query conf)
      (U_pull {[ ThroughProp conf := q ]}) s
  else ((UpdateResult_zero, Some "invalid relation type"%string), s).

(** Runs a cascaded save operation with one configuration.  ([doc] is
    unused by the body, as in the source.) *)
Definition cascadeSaveWithConfig (conf : CascadeConfig) (doc : Document) (s : St)
  : (UpdateResult * option error) * St :=
  let data := Data conf in
  if RelType conf =? REL_ONE then
    let write_embed (s : St) :=
      let update :=
        if (0 <? String.length (ThroughProp conf))%nat
        then U_set {[ ThroughProp conf := data ]}
        else U_set_data data in
      UpdateMany (conf_Collection conf) (Query conf) update s in
    if (0 <? size (OldQuery conf))%nat then
      let '(ret, err, s1) :=
        UpdateMany (conf_Collection conf) (OldQuery conf) (nullify_update conf) s in
      if RemoveOnly conf then (ret, err, s1) else write_embed s1
    else write_embed s
  else if RelType conf =? REL_MANY then
    let q := reference_q (ReferenceQuery conf) in
    let update1 := U_pull {[ ThroughProp conf := q ]} in
    let push_embed (s : St) :=
      (* the result and the error of this pull are dropped *)
      let '(_, _, s2) := UpdateMany (conf_Collection conf) (Query conf) update1 s in
      let update2 := U_push {[ ThroughProp conf := data ]} in
      UpdateMany (conf_Collection conf) (Query conf) update2 s2 in
    if (0 <? size (OldQuery conf))%nat then
      let '(ret, err, s1) :=
        UpdateMany (conf_Collection conf) (OldQuery conf) update1 s in
      if RemoveOnly conf then (ret, err, s1) else push_embed s1
    else push_embed s
  else ((UpdateResult_zero, Some "invalid relation type"%string), s).

(** [ResultSet.Next(doc)] for a result set of collection [coll], given
    whether the cursor had another result: the [AfterFind] hook of [doc]
    runs, and its error ends the iteration.  (Nothing is decoded into
    [doc]; [r.Error] and [SetIsNew] are not read by the cascade.) *)
Definition ResultSet_Next (coll : Collection) (doc : option Document)
    (gotResult : bool) : bool :=
  if gotResult then
    match doc with
    | Some d =>
        match AfterFind d with
        | Some hook => match hook coll with Some _ => false | None => true end
        | None => true
        end
    | None => true
    end
  else false.

(** A run of [CascadeSave]: [None] when the nesting budget is used up,
    else the returned error and the store it leaves. *)
Definition save_run : Type := option (option error * St).

(** [for results.Next(conf.Instance) { err = CascadeSave(conf.Collection,
    conf.Instance); if err != nil { return err } }], with [rec] the
    recursive call. *)
Fixpoint nested_loop (rec : Collection → option Document → St → save_run)
    (coll : Collection) (inst : option Document) (results : Cursor) (s : St)
  : save_run :=
  match results with
  | [] => Some (None, s)
  | _ :: rest =>
      if ResultSet_Next coll inst true then
        match rec coll inst s with
        | None => None
        | Some (Some e, s') => Some (Some e, s')
        | Some (None, s') => nested_loop rec coll inst rest s'
        end
      else Some (None, s)
  end.

(** The default reference: [[]*ReferenceField{{"_id", id}}] when the
    config has none. *)
Definition default_reference (conf : CascadeConfig) (id : value) : CascadeConfig :=
  if (length (ReferenceQuery conf) =? 0)%nat
  then set_ReferenceQuery conf [mkReferenceField "_id" id]
  else conf.

(** The body of [for _, conf := range toCascade] in [CascadeSave]. *)
Fixpoint save_configs (rec : Collection → option Document → St → save_run)
    (toCascade : list CascadeConfig) (doc : Document) (s : St) : save_run :=
  match toCascade with
  | [] => Some (None, s)
  | conf0 :: rest =>
      let conf := default_reference conf0 (GetID doc) in
      let '(_, err, s1) := cascadeSaveWithConfig conf doc s in
      match err with
      | Some e => Some (Some e, s1)
      | None =>
          if Nest conf then
            let '(results, ferr, s2) := Find (conf_Collection conf) (Query conf) s1 in
            match ferr with
            | Some e => Some (Some e, s2)
            | None =>
                match nested_loop rec (conf_Collection conf) (conf_Instance conf)
                        results s2 with
                | None => None
                | Some (Some e, s3) => Some (Some e, s3)
                | Some (None, s3) => save_configs rec rest doc s3
                end
            end
          else save_configs rec rest doc s1
      end
  end.

(** Cascades a document's properties to related documents.  A [nil]
    document, like one without [GetCascade], fails the interface
    assertion.  [fuel] bounds the depth of [Nest] recursion, which the
    source leaves unbounded. *)
Fixpoint CascadeSave (fuel : nat) (collection : Collection)
    (doc : option Document) (s : St) : save_run :=
  match doc with
  | None => Some (None, s)
  | Some d =>
      match GetCascade d with
      | None => Some (None, s)
      | Some getCascade =>
          match fuel with
          | O => None
          | S fuel' => save_configs (CascadeSave fuel') (getCascade collection) d s
          end
      end
  end.

(** [reflections.GetField(doc, name)] on the document's struct fields. *)
Definition reflections_GetField (doc : Document) (name : string) : value + error :=
  match List.find (λ f, String.eqb (fst f) name) (fields doc) with
  | Some f => inl (snd f)
  | None => inr ("No such field: " +:+ name +:+ " in obj")%string
  end.

(** How a call without an error result ends. *)
Inductive exit :=
| Returned
| Panicked (v : error).

(** The body of [for _, conf := range toCascade] in [CascadeDelete]: the
    per-config result and error are dropped. *)
Fixpoint delete_configs (toCascade : list CascadeConfig) (doc : Document) (s : St)
  : exit * St :=
  match toCascade with
  | [] => (Returned, s)
  | conf0 :: rest =>
      let resolved :=
        if (length (ReferenceQuery conf0) =? 0)%nat then
          match reflections_GetField doc "Id" with
          | inl id => inl (set_ReferenceQuery conf0 [mkReferenceField "_id" id])
          | inr err => inr err
          end
        else inl conf0 in
      match resolved with
      | inr err => (Panicked err, s)
      | inl conf =>
          let '(_, _, s1) := cascadeDeleteWithConfig conf s in
          delete_configs rest doc s1
      end
  end.

(** Deletes references to a document from its related documents. *)
Definition CascadeDelete (collection : Collection) (doc : Document) (s : St)
  : exit * St :=
  match GetCascade doc with
  | Some getCascade => delete_configs (getCascade collection) doc s
  | None => (Returned, s)
  end.

End Cascade.

(** ** A driver that records what is asked of it *)

Inductive op :=
| Op_UpdateMany (c : Collection) (query : bsonM) (u : update)
| Op_Find (c : Collection) (query : bsonM).

(** Any driver, with the operations issued against it appended to a log. *)
Definition logged {St : Type} (D : Driver St) : Driver (St * list op) := {|
  UpdateMany c q u sl :=
    let '(r, s') := UpdateMany c q u (fst sl) in
    (r, (s', snd sl ++ [Op_UpdateMany c q u]));
  Find c q sl :=
    let '(r, s') := Find c q (fst sl) in
    (r, (s', snd sl ++ [Op_Find c q]));
|}.

(** The update documents of the per-config save, by name. *)
Definition pull_update (conf : CascadeConfig) : update :=
  U_pull {[ ThroughProp conf := reference_q (ReferenceQuery conf) ]}.

Definition push_update (conf : CascadeConfig) : update :=
  U_push {[ ThroughProp conf := Data conf ]}.

Definition embed_update (conf : CascadeConfig) : update :=
  if (0 <? String.length (ThroughProp conf))%nat
  then U_set {[ ThroughProp conf := Data conf ]}
  else U_set_data (Data conf).

(** The per-config save stops after the clean-up at the previous owners:
    [if conf.RemoveOnly { return ret, err }] under [len(conf.OldQuery) > 0]. *)
Definition stops_after_cleanup (conf : CascadeConfig) : bool :=
  (0 <? size (OldQuery conf))%nat && RemoveOnly conf.

(** The operations one per-config save asks of the store, in order. *)
Definition save_ops (conf : CascadeConfig) : list op :=
  let c := conf_Collection conf in
  let cleanup (u : update) :=
    if (0 <? size (OldQuery conf))%nat then [Op_UpdateMany c (OldQuery conf) u] else [] in
  if RelType conf =? REL_ONE then
    cleanup (nullify_update conf) ++
    (if stops_after_cleanup conf then []
     else [Op_UpdateMany c (Query conf) (embed_update conf)])
  else if RelType conf =? REL_MANY then
    cleanup (pull_update conf) ++
    (if stops_after_cleanup conf then []
     else [Op_UpdateMany c (Query conf) (pull_update conf);
           Op_UpdateMany c (Query conf) (push_update conf)])
  else [].


(** ** A reference model of the store

    The cascade code only needs a small part of MongoDB: equality
    selectors on top-level fields, and the [$set], [$pull] and [$push]
    operators on top-level fields.  [UpdateMany] is not atomic: it stops at
    the first document whose update is rejected and keeps what it had
    already written. *)

Module Mongo.

(** The collections of the connection, each a list of documents. *)
Abbreviation store := (gmap Collection (list bsonM)).

(** The selector [q] matches document [d]: every field of [q] is in [d]
    with that value. *)
Definition matches (q d : bsonM) : bool :=
  bool_decide (map_Forall (λ k v, d !! k = Some v) q).

(** The field [k] of an embedded document. *)
Definition field (k : string) (fs : list (string * value)) : option value :=
  snd <$> List.find (λ f, String.eqb (fst f) k) fs.

(** The condition [q] of a [$pull] matches the array entry [e]. *)
Definition entry_matches (q : bsonM) (e : value) : bool :=
  match e with
  | VDoc fs => bool_decide (map_Forall (λ k v, field k fs = Some v) q)
  | _ => false
  end.

Definition pull_field (prop : string) (q : bsonM) (acc : option bsonM)
  : option bsonM :=
  d ← acc;
  match d !! prop with
  | None => Some d
  | Some (VArr l) =>
      Some (<[prop := VArr (List.filter (λ e, negb (entry_matches q e)) l)]> d)
  | Some _ => None
  end.

Definition push_field (prop : string) (v : value) (acc : option bsonM)
  : option bsonM :=
  d ← acc;
  match d !! prop with
  | None => Some (<[prop := VArr [v]]> d)
  | Some (VArr l) => Some (<[prop := VArr (l ++ [v])]> d)
  | Some _ => None
  end.

(** One document under one update; [None] when the store rejects it. *)
Definition apply_update (u : update) (d : bsonM) : option bsonM :=
  match u with
  | U_set m => Some (m ∪ d)
  | U_set_data (VDoc fs) => Some (list_to_map fs ∪ d)
  | U_set_data _ => None
  | U_pull m => map_fold pull_field (Some d) m
  | U_push m => map_fold push_field (Some d) m
  end.

(** The documents of a collection under [UpdateMany]: the new documents,
    how many matched and were modified so far, and the error. *)
Fixpoint update_docs (q : bsonM) (u : update) (docs : list bsonM)
  : list bsonM * UpdateResult * option error :=
  match docs with
  | [] => ([], UpdateResult_zero, None)
  | d :: rest =>
      if matches q d then
        match apply_update u d with
        | Some d' =>
            let '(rest', r, err) := update_docs q u rest in
            (d' :: rest',
             mkUpdateResult (1 + MatchedCount r)
               ((if decide (d' = d) then 0 else 1) + ModifiedCount r),
             err)
        | None => (d :: rest, UpdateResult_zero, Some "write error"%string)
        end
      else
        let '(rest', r, err) := update_docs q u rest in (d :: rest', r, err)
  end.

Definition docs_of (c : Collection) (st : store) : list bsonM :=
  default [] (st !! c).

#[global] Instance driver : Driver store := {|
  UpdateMany c q u st :=
    let '(docs', r, err) := update_docs q u (docs_of c st) in
    ((r, err), <[c := docs']> st);
  Find c q st := ((List.filter (matches q) (docs_of c st), None), st);
|}.

End Mongo.

(** ** MapFromCascadeProperties *)

(** [strings.Split(s, ".")]: never empty, [[""]] for the empty string. *)
Fixpoint split_dot (s : string) : list string :=
  match s with
  | EmptyString => [EmptyString]
  | String c rest =>
      if Ascii.eqb c "."%char then EmptyString :: split_dot rest
      else
        match split_dot rest with
        | hd :: tl => String c hd :: tl
        | [] => [String c EmptyString]
        end
  end.

(** What the projected [map[string]interface{}] holds under a key: a
    value resolved from the document, or a nested
    [map[string]interface{}].  Only the latter passes the type assertion
    [curData[s].(map[string]interface{})]; resolved fields that are
    themselves of that very map type are outside this model. *)
Inductive pvalue :=
| PVal (v : value)
| PMap (m : gmap string pvalue).

(** How a call that can [panic] ends. *)
Inductive projected (A : Type) :=
| Projected (a : A)
| Panic (msg : string).

Arguments Projected {A} a.
Arguments Panic {A} msg.

Section Projector.
(** [dotaccess.Get(doc, prop)] of github.com/go-bongo/go-dotaccess. *)
Variable dotaccess_Get : Document → string → value * option error.

(** The walk [for _, s := range split { ... curData = mapped }] followed
    by [curData[actualProp] = val].  Go maps are references, so the
    write at the end of the walk is seen from [data]; here each level is
    put back into its parent on the way out. *)
Fixpoint set_nested (split : list string) (actualProp : string) (val : value)
    (curData : gmap string pvalue) : projected (gmap string pvalue) :=
  match split with
  | [] => Projected (<[actualProp := PVal val]> curData)
  | s :: split' =>
      match curData !! s with
      | Some (PMap mapped) =>
          match set_nested split' actualProp val mapped with
          | Projected mapped' => Projected (<[s := PMap mapped']> curData)
          | Panic msg => Panic msg
          end
      | Some (PVal _) =>
          Panic "Cannot access non-map property via dot notation"
      | None =>
          match set_nested split' actualProp val ∅ with
          | Projected mapped' => Projected (<[s := PMap mapped']> curData)
          | Panic msg => Panic msg
          end
      end
  end.

(** The body of [for _, prop := range properties]. *)
Definition project_prop (doc : Document) (data : gmap string pvalue)
    (prop : string) : projected (gmap string pvalue) :=
  let split := split_dot prop in
  if (length split =? 1)%nat then
    Projected (<[prop := PVal (fst (dotaccess_Get doc prop))]> data)
  else
    let actualProp := List.last split EmptyString in
    let split := List.removelast split in
    set_nested split actualProp (fst (dotaccess_Get doc prop)) data.

Fixpoint project_props (doc : Document) (properties : list string)
    (data : gmap string pvalue) : projected (gmap string pvalue) :=
  match properties with
  | [] => Projected data
  | prop :: rest =>
      match project_prop doc data prop with
      | Projected data' => project_props doc rest data'
      | Panic msg => Panic msg
      end
  end.

Definition MapFromCascadeProperties (properties : list string) (doc : Document)
  : projected (gmap string pvalue) :=
  project_props doc properties ∅.

End Projector.

(** The walk along [split] from [curData] meets a key that holds something
    other than a [map[string]interface{}]. *)
Fixpoint conflicts (split : list string) (curData : gmap string pvalue) : bool :=
  match split with
  | [] => false
  | s :: split' =>
      match curData !! s with
      | Some (PMap mapped) => conflicts split' mapped
      | Some (PVal _) => true
      | None => false
      end
  end.

(** The mapping levels for the segments [split], with [val] under the
    leaf key [actualProp]. *)
Fixpoint nest (split : list string) (actualProp : string) (val : value)
  : gmap string pvalue :=
  match split with
  | [] => {[ actualProp := PVal val ]}
  | s :: split' => {[ s := PMap (nest split' actualProp val) ]}
  end.

(** The path has a [.] in it. *)
Fixpoint has_dot (s : string) : bool :=
  match s with
  | EmptyString => false
  | String c rest => Ascii.eqb c "."%char || has_dot rest
  end.

Definition dot_panic : string :=
  "Cannot access non-map property via dot notation".

(** A resolver for the examples: dotted paths read through embedded
    documents, and a missing field resolves to [nil] with an error. *)
Fixpoint get_path (path : list string) (v : value) : value * option error :=
  match path with
  | [] => (v, None)
  | key :: path' =>
      match v with
      | VDoc fs =>
          match Mongo.field key fs with
          | Some v' => get_path path' v'
          | None => (VNil, Some ("No such field: " +:+ key +:+ " in obj")%string)
          end
      | _ => (VNil, Some "Cannot use GetField on a non-struct interface"%string)
      end
  end.

Definition get_dotted (doc : Document) (prop : string) : value * option error :=
  get_path (split_dot prop) (VDoc (fields doc)).

(** ** The diff tracker *)

Module DiffTracker.

(** Modelled from the spec: the diff tracker (its source file, with
    [NewDiffTracker], [Modified], [GetOriginalValue] and [Reset], is not
    among the sources; only its callers are).  A tracker belongs to one
    document instance and holds a snapshot map from field name to the
    last captured value; the instance's live values are [current]. *)
Record tracked := mkTracked {
  current : bsonM;
  snapshot : bsonM;
}.

(** Modelled from the spec: [Capture(doc)] records the current values of
    all tracked fields as the baseline. *)
Definition Capture (doc : bsonM) (t : tracked) : tracked :=
  mkTracked (current t) doc.

(** Modelled from the spec: [Modified(fieldName)] is true iff the
    field's live value differs from the captured baseline; an untracked
    field is never modified. *)
Definition Modified (fieldName : string) (t : tracked) : bool :=
  match snapshot t !! fieldName with
  | Some original => bool_decide (current t !! fieldName ≠ Some original)
  | None => false
  end.

(** Modelled from the spec: [GetOriginalValue(fieldName)] returns the
    baseline value if tracked, and reports whether it was found. *)
Definition GetOriginalValue (fieldName : string) (t : tracked) : value * bool :=
  match snapshot t !! fieldName with
  | Some original => (original, true)
  | None => (VNil, false)
  end.

(** Modelled from the spec: [Reset()] re-captures current values as the
    new baseline ([Capture] on the instance's current state). *)
Definition Reset (t : tracked) : tracked := Capture (current t) t.

(** The instance assigns [v] to one of its fields. *)
Definition assign (fieldName : string) (v : value) (t : tracked) : tracked :=
  mkTracked (<[fieldName := v]> (current t)) (snapshot t).

End DiffTracker.

(** ** collection.go: Save and DeleteDocument *)

Module Persist.

(** A document with the capabilities [Save] and [DeleteDocument] look
    for by interface assertion ([None]: not implemented), and whether
    [GetId().IsZero()]. *)
Record HookedDocument := mkHooked {
  document : Document;
  id_IsZero : bool;
  Validate : option (Collection → list error);
  BeforeSave : option (Collection → option error);
  AfterSave : option (Collection → option error);
  BeforeDelete : option (Collection → option error);
  AfterDelete : option (Collection → option error);
  IsNew : option bool;
}.

(** What a call does that others can observe, in program order: the
    primary store operation with the error it returned, and each [go]
    statement with the call it detaches.  The detached call runs on its
    own; the caller neither runs it nor waits for it. *)
Inductive event :=
| UpsertId (c : Collection) (err : option error)
| DeleteOne (c : Collection) (err : option error)
| Go_CascadeSave (c : Collection) (doc : Document)
| Go_CascadeDelete (c : Collection) (doc : Document).

Definition run_hook (hook : option (Collection → option error)) (c : Collection)
  : option error :=
  match hook with
  | Some h => h c
  | None => None
  end.

Definition PreSave (c : Collection) (doc : HookedDocument) : option error :=
  let invalid :=
    match Validate doc with
    | Some validate =>
        let errs := validate c in
        if (0 <? length errs)%nat
        then Some ("Validation failed. (" +:+ String.concat ", " errs +:+ ")")%string
        else None
    | None => None
    end in
  match invalid with
  | Some e => Some e
  | None => run_hook (BeforeSave doc) c
  end.

(** [Save], given the error [col.UpsertId] returns when it is called. *)
Definition Save (c : Collection) (doc : HookedDocument) (upsert : option error)
  : option error * list event :=
  match PreSave c doc with
  | Some e => (Some e, [])
  | None =>
      let isNew := match IsNew doc with Some b => b | None => true end in
      let launched := [Go_CascadeSave c (document doc)] in
      if negb isNew && id_IsZero doc then
        (Some "New tracker says this document isn't new but there is no valid Id field"%string,
         launched)
      else
        let events := launched ++ [UpsertId c upsert] in
        match upsert with
        | Some e => (Some e, events)
        | None => (run_hook (AfterSave doc) c, events)
        end
  end.

(** [DeleteDocument], given the error [col.DeleteOne] returns when it is
    called; the [*mongo.DeleteResult] is returned exactly when the error
    is [nil]. *)
Definition DeleteDocument (c : Collection) (doc : HookedDocument)
    (deleteOne : option error) : option error * list event :=
  match run_hook (BeforeDelete doc) c with
  | Some e => (Some e, [])
  | None =>
      match deleteOne with
      | Some e => (Some e, [DeleteOne c deleteOne])
      | None =>
          (run_hook (AfterDelete doc) c,
           [DeleteOne c deleteOne; Go_CascadeDelete c (document doc)])
      end
  end.

(** Every [go] of a cascade orchestrator in [events] comes after a
    primary store operation that returned no error; [committed] says
    whether one was seen before [events]. *)
Fixpoint launched_after_primary (committed : bool) (events : list event) : bool :=
  match events with
  | [] => true
  | UpsertId _ err :: rest | DeleteOne _ err :: rest =>
      launched_after_primary (committed || bool_decide (err = None)) rest
  | Go_CascadeSave _ _ :: rest | Go_CascadeDelete _ _ :: rest =>
      committed && launched_after_primary committed rest
  end.

End Persist.

(** ** Fixtures: the parent / child collections of the test suite *)

Module Fixtures.

Definition parents : Collection := mkCollection "parents" "bongotest".
Definition children : Collection := mkCollection "children" "bongotest".

Definition parent1 : bsonM :=
  {[ "_ID" := VObjectID "p1"; "bar" := VStr "Testy McGee" ]}.
Definition parent2 : bsonM :=
  {[ "_ID" := VObjectID "p2"; "bar" := VStr "Other Parent" ]}.

Definition store0 : Mongo.store := {[ parents := [parent1; parent2] ]}.

(** [ChildRef] of the child "c1". *)
Definition ref : value :=
  VDoc [("_ID", VObjectID "c1"); ("name", VStr "Foo McGoo")].

Definition byID (id : string) : bsonM := {[ "_ID" := VObjectID id ]}.

Definition cascadeSingle (old : bsonM) (removeOnly : bool) : CascadeConfig :=
  mkCascadeConfig parents REL_ONE "child" (byID "p1") old false
    ["_ID"; "name"] ref None removeOnly [].

Definition cascadeMulti (old : bsonM) (removeOnly : bool) : CascadeConfig :=
  mkCascadeConfig parents REL_MANY "children" (byID "p1") old false
    ["_ID"; "name"] ref None removeOnly [mkReferenceField "_ID" (VObjectID "c1")].

(** A config of a relation type that does not exist. *)
Definition cascadeBroken : CascadeConfig :=
  mkCascadeConfig parents 7 "child" (byID "p1") ∅ false [] ref None false [].

Definition child_fields : list (string * value) :=
  [("ID", VObjectID "c1"); ("Name", VStr "Foo McGoo");
   ("ParentID", VObjectID "p1")].

(** A [Child] with the given cascade. *)
Definition child_with (toCascade : list CascadeConfig) : Document :=
  mkDocument (VObjectID "c1") child_fields (Some (λ _, toCascade)) None.

Definition child : Document :=
  child_with [cascadeSingle ∅ false; cascadeMulti ∅ false].

(** A document with a field [a] and an embedded object [b]. *)
Definition nested : Document :=
  mkDocument (VObjectID "d1")
    [("a", VStr "x"); ("b", VDoc [("c", VStr "y")])] None None.

(** A document that does have a struct field [Id]. *)
Definition with_Id (toCascade : list CascadeConfig) : Document :=
  mkDocument (VObjectID "c1") (("Id", VObjectID "c1") :: child_fields)
    (Some (λ _, toCascade)) None.

(** A document type without [GetCascade]. *)
Definition plain : Document :=
  mkDocument (VObjectID "n1") [("ID", VObjectID "n1")] None None.

(** A driver whose [$pull] updates are lost on the way to the store. *)
Definition pull_fails : Driver Mongo.store := {|
  UpdateMany c q u st :=
    match u with
    | U_pull _ => ((UpdateResult_zero, Some "connection reset by peer"%string), st)
    | _ => UpdateMany (Driver := Mongo.driver) c q u st
    end;
  Find := Find (Driver := Mongo.driver);
|}.

Definition hooked (doc : Document) (isNew : option bool) (zero : bool)
  : Persist.HookedDocument :=
  Persist.mkHooked doc zero None None None None None isNew.

End Fixtures.


(** ** What the orchestrators ask of the store *)

(** The operation one per-config delete asks of the store. *)
Definition delete_ops (conf : CascadeConfig) : list op :=
  if RelType conf =? REL_ONE then
    [Op_UpdateMany (conf_Collection conf) (Query conf) (nullify_update conf)]
  else if RelType conf =? REL_MANY then
    [Op_UpdateMany (conf_Collection conf) (Query conf) (pull_update conf)]
  else [].

(** The clean-up update of a per-config save, issued at [OldQuery]. *)
Definition cleanup_update (conf : CascadeConfig) : update :=
  if RelType conf =? REL_ONE then nullify_update conf else pull_update conf.

(** The relation type is one of the two the switch knows. *)
Definition valid_RelType (conf : CascadeConfig) : Prop :=
  RelType conf = REL_ONE ∨ RelType conf = REL_MANY.

(** A driver none of whose updates returns an error. *)
Definition reliable {St : Type} (D : Driver St) : Prop :=
  ∀ c q u s, snd (fst (UpdateMany c q u s)) = None.

(** The store after the per-config saves of [toCascade], one after the
    other, for a document with identifier [id]. *)
Definition saves_in_order {St : Type} {D : Driver St} (id : value) (doc : Document)
    (toCascade : list CascadeConfig) (s : St) : St :=
  foldl (λ s conf, snd (cascadeSaveWithConfig (default_reference conf id) doc s))
    s toCascade.

(** [n] calls of [rec] on the same instance, until one returns an error. *)
Fixpoint repeat_cascade {St : Type}
    (rec : Collection → option Document → St → option (option error * St))
    (coll : Collection) (inst : option Document) (n : nat) (s : St)
  : option (option error * St) :=
  match n with
  | O => Some (None, s)
  | S n' =>
      match rec coll inst s with
      | None => None
      | Some (Some e, s') => Some (Some e, s')
      | Some (None, s') => repeat_cascade rec coll inst n' s'
      end
  end.

(** The instance of a config cannot cascade: it is [nil] or its type has
    no [GetCascade]. *)
Definition no_cascade (inst : option Document) : Prop :=
  match inst with
  | None => True
  | Some d => GetCascade d = None
  end.

(** ** The per-config operations, document by document *)

(** The field [prop] of [d] is an array, or missing: what [$pull] and
    [$push] accept. *)
Definition array_or_absent (prop : string) (d : bsonM) : bool :=
  match d !! prop with
  | None | Some (VArr _) => true
  | Some _ => false
  end.

(** [d] without the entries of its array [prop] that match [rq]. *)
Definition pulled (prop : string) (rq : bsonM) (d : bsonM) : bsonM :=
  match d !! prop with
  | Some (VArr l) =>
      <[prop := VArr (List.filter (λ e, negb (Mongo.entry_matches rq e)) l)]> d
  | _ => d
  end.

(** [d] with [v] appended to its array [prop] (created when missing). *)
Definition pushed (prop : string) (v : value) (d : bsonM) : bsonM :=
  match d !! prop with
  | Some (VArr l) => <[prop := VArr (l ++ [v])]> d
  | _ => <[prop := VArr [v]]> d
  end.

(** The fields a clean-up of a [REL_ONE] config sets to [nil]. *)
Definition nullify_map (conf : CascadeConfig) : bsonM :=
  if (0 <? String.length (ThroughProp conf))%nat
  then {[ ThroughProp conf := VNil ]}
  else foldl (λ m p, <[p := VNil]> m) ∅ (Properties conf).

Definition old_owner (conf : CascadeConfig) (d : bsonM) : bool :=
  (0 <? size (OldQuery conf))%nat && Mongo.matches (OldQuery conf) d.

(** What the save of a [REL_ONE] config with a through prop makes of a
    document of the target collection. *)
Definition one_saved (conf : CascadeConfig) (d : bsonM) : bsonM :=
  if Mongo.matches (Query conf) d then <[ThroughProp conf := Data conf]> d
  else if old_owner conf d then <[ThroughProp conf := VNil]> d
  else d.

(** What the save of a [REL_MANY] config makes of a document of the
    target collection. *)
Definition many_saved (conf : CascadeConfig) (d : bsonM) : bsonM :=
  let rq := reference_q (ReferenceQuery conf) in
  if Mongo.matches (Query conf) d
  then pushed (ThroughProp conf) (Data conf) (pulled (ThroughProp conf) rq d)
  else if old_owner conf d then pulled (ThroughProp conf) rq d
  else d.

(** What the delete of a config makes of a document of the target
    collection. *)
Definition deleted (conf : CascadeConfig) (d : bsonM) : bsonM :=
  if Mongo.matches (Query conf) d then
    if RelType conf =? REL_ONE then nullify_map conf ∪ d
    else pulled (ThroughProp conf) (reference_q (ReferenceQuery conf)) d
  else d.

(** The store after one operation, and after a list of them. *)
Definition run_op {St : Type} {D : Driver St} (s : St) (o : op) : St :=
  match o with
  | Op_UpdateMany c q u => snd (UpdateMany c q u s)
  | Op_Find c q => snd (Find c q s)
  end.

Definition run_ops {St : Type} {D : Driver St} (s : St) (ops : list op) : St :=
  foldl run_op s ops.

(** ** Reading the projected map *)

(** The value the projected map holds at the end of [path], read level
    by level as the walk of the projector goes. *)
Fixpoint get_nested (path : list string) (data : gmap string pvalue)
  : option pvalue :=
  match path with
  | [] => None
  | k :: rest =>
      match rest with
      | [] => data !! k
      | _ :: _ =>
          match data !! k with
          | Some (PMap mapped) => get_nested rest mapped
          | _ => None
          end
      end
  end.

(** No listed path stops where another listed path goes on: when the
    segments of one are the first segments of another, the two are the
    same path. *)
Definition prefix_free (properties : list string) : Prop :=
  ∀ p q, p ∈ properties → q ∈ properties →
         split_dot p `prefix_of` split_dot q → p = q.

(** What the projection has reached: every path of [done] holds its
    resolved value, and resolved values sit at the end of those paths
    only. *)
Definition projected_so_far (dotaccess_Get : Document → string → value * option error)
    (doc : Document) (done : list string) (data : gmap string pvalue) : Prop :=
  (∀ p, p ∈ done →
        get_nested (split_dot p) data = Some (PVal (fst (dotaccess_Get doc p))))
  ∧ (∀ path x, get_nested path data = Some (PVal x) →
               ∃ p, p ∈ done ∧ split_dot p = path).

(** ** DocumentBase and the life of a document *)

Module Lifecycle.

(** [primitive.NilObjectID], in hex. *)
Definition NilObjectID : string := "000000000000000000000000".

Definition IsZero (id : string) : bool := String.eqb id NilObjectID.

(** [DocumentBase]: object ids in hex, times as instants; [exists_] is
    the unexported field [exists]. *)
Record DocumentBase := mkDocumentBase {
  ID : string;
  CreatedAt : Z;
  DeletedAt : Z;
  UpdatedAt : Z;
  exists_ : bool;
}.

Definition SetIsNew (isNew : bool) (d : DocumentBase) : DocumentBase :=
  mkDocumentBase (ID d) (CreatedAt d) (DeletedAt d) (UpdatedAt d) (negb isNew).

Definition IsNew (d : DocumentBase) : bool := negb (exists_ d).

Definition GetID (d : DocumentBase) : string := ID d.

Definition SetID (id : string) (d : DocumentBase) : DocumentBase :=
  mkDocumentBase id (CreatedAt d) (DeletedAt d) (UpdatedAt d) (exists_ d).

Definition SetCreatedAt (t : Z) (d : DocumentBase) : DocumentBase :=
  mkDocumentBase (ID d) t (DeletedAt d) (UpdatedAt d) (exists_ d).

Definition SetUpdatedAt (t : Z) (d : DocumentBase) : DocumentBase :=
  mkDocumentBase (ID d) (CreatedAt d) (DeletedAt d) t (exists_ d).

(** The struct fields reflection finds on a document type that embeds
    [DocumentBase]: its own fields first, then the promoted ones. *)
Definition struct_fields (own : list (string * value)) (d : DocumentBase)
  : list (string * value) :=
  own ++ [("ID", VObjectID (ID d)); ("CreatedAt", VInt (CreatedAt d));
          ("DeletedAt", VInt (DeletedAt d)); ("UpdatedAt", VInt (UpdatedAt d));
          ("exists", VInt (if exists_ d then 1 else 0))].

(** The document the cascade sees for a type embedding [DocumentBase]. *)
Definition as_document (own : list (string * value)) (d : DocumentBase)
    (getCascade : option (Collection → list CascadeConfig)) : Document :=
  mkDocument (VObjectID (ID d)) (struct_fields own d) getCascade None.

(** The hooks of a document type ([hooks]) around the state [d] of its
    embedded [DocumentBase], which supplies the new tracker and the id. *)
Definition with_base (hooks : Persist.HookedDocument) (d : DocumentBase)
  : Persist.HookedDocument :=
  Persist.mkHooked (Persist.document hooks) (IsZero (GetID d))
    (Persist.Validate hooks) (Persist.BeforeSave hooks) (Persist.AfterSave hooks)
    (Persist.BeforeDelete hooks) (Persist.AfterDelete hooks) (Some (IsNew d)).

(** [Save] on a document embedding [DocumentBase], which implements the
    new tracker and both time trackers: the error, the document as [Save]
    leaves it, and the id handed to the upsert when it is issued.  [now] is
    [time.Now()], [fresh] is [primitive.NewObjectID()], [upsert] the error
    of the upsert. *)
Definition Save (c : Collection) (hooks : Persist.HookedDocument) (d : DocumentBase)
    (now : Z) (fresh : string) (upsert : option error)
  : option error * DocumentBase * option string :=
  match Persist.PreSave c (with_base hooks d) with
  | Some e => (Some e, d, None)
  | None =>
      let isNew := IsNew d in
      let d := if isNew then SetCreatedAt now d else d in
      let d := SetUpdatedAt now d in
      (* go CascadeSave(c, doc) *)
      let id := GetID d in
      if negb isNew && IsZero id then
        (Some "New tracker says this document isn't new but there is no valid Id field"%string,
         d, None)
      else
        let '(id, d) :=
          if isNew && IsZero id then (fresh, SetID fresh d) else (id, d) in
        match upsert with
        | Some e => (Some e, d, Some id)
        | None =>
            match Persist.run_hook (Persist.AfterSave hooks) c with
            | Some e => (Some e, d, Some id)
            | None => (None, SetIsNew false d, Some id)
            end
        end
  end.

(** [ResultSet]: the part [Next] and [Free] use.  [pending] is how many
    results the cursor still has, [cursorErr] what [Cursor.Err()] returns
    once it has none. *)
Record ResultSet := mkResultSet {
  loadedIter : bool;
  Error : option error;
  pending : nat;
  cursorErr : option error;
  rs_Collection : Collection;
}.

(** [r.Next(doc)] for a document embedding [DocumentBase] with the
    [AfterFind] hook [afterFind] (if any): whether there is a result, the
    result set and the document afterwards.  Nothing is decoded. *)
Definition Next (afterFind : option (Collection → option error)) (r : ResultSet)
    (d : DocumentBase) : bool * ResultSet * DocumentBase :=
  let r := mkResultSet true (Error r) (pending r) (cursorErr r) (rs_Collection r) in
  match pending r with
  | S n =>
      let r := mkResultSet true (Error r) n (cursorErr r) (rs_Collection r) in
      match Persist.run_hook afterFind (rs_Collection r) with
      | Some err =>
          (false, mkResultSet true (Some err) n (cursorErr r) (rs_Collection r), d)
      | None => (true, r, SetIsNew false d)
      end
  | O =>
      match cursorErr r with
      | Some err =>
          (false, mkResultSet true (Some err) O (cursorErr r) (rs_Collection r), d)
      | None => (false, r, d)
      end
  end.

(** [FindOne], given what [Find] returns: the result set and its
    error. *)
Definition FindOne (afterFind : option (Collection → option error))
    (results : ResultSet) (findErr : option error) (d : DocumentBase)
  : option error * DocumentBase :=
  match findErr with
  | Some err => (Some err, d)
  | None =>
      let '(hasNext, results, d) := Next afterFind results d in
      if negb hasNext then
        match Error results with
        | Some err => (Some err, d)
        | None => (Some "Document not found"%string, d)
        end
      else (None, SetIsNew false d)
  end.

End Lifecycle.

(** ** validate.go *)

Fixpoint stringInSlice (a : string) (list : list string) : bool :=
  match list with
  | [] => false
  | b :: rest => if String.eqb b a then true else stringInSlice a rest
  end.

Definition ValidateInclusionIn (value : string) (options : list string) : bool :=
  stringInSlice value options.

(** [ValidateMongoIdRef], given what the driver's [Find] returns: the
    cursor ([None] for a nil pointer, else what its [Err()] returns) and the
    error.  The three tests are evaluated left to right, and [cur.Err()] on
    a nil cursor dereferences it. *)
Definition ValidateMongoIdRef (cur : option (option error)) (err : option error)
  : projected bool :=
  match err with
  | Some _ => Projected false
  | None =>
      match cur with
      | None => Panic "runtime error: invalid memory address or nil pointer dereference"
      | Some curErr =>
          match curErr with
          | Some _ => Projected false
          | None => Projected false (* cur != nil *)
          end
      end
  end.

(** ** main.go: Connect *)

Module Connection.

(** What a call into the driver does: return, or panic with a value. *)
Inductive panic_value :=
| PanicError (e : error)
| PanicString (s : string)
| PanicOther (printed : string).

Inductive step (A : Type) :=
| Ret (a : A)
| Panics (v : panic_value).

Arguments Ret {A} a.
Arguments Panics {A} v.

(** The deferred [recover]: the error a panic value becomes. *)
Definition recovered (v : panic_value) : error :=
  match v with
  | PanicError e => e
  | PanicString s => s
  | PanicOther printed => printed
  end.

(** [m.Connect()], given what [mongo.NewClient] and [client.Connect] do:
    the returned error and [m.Session] afterwards ([session] before). *)
Definition Connect {Client : Type} (session : option Client)
    (newClient : step (Client * option error))
    (connect : Client → step (option error))
  : option error * option Client :=
  match newClient with
  | Panics v => (Some (recovered v), session)
  | Ret (client, Some err) => (Some err, session)
  | Ret (client, None) =>
      match connect client with
      | Panics v => (Some (recovered v), session)
      | Ret (Some err) => (Some err, session)
      | Ret None => (None, Some client)
      end
  end.

End Connection.

(** ** More fixtures *)

Module Examples.

(** A driver that accepts every update and finds nothing. *)
Definition accepting : Driver unit := {|
  UpdateMany c q u s := ((UpdateResult_zero, None), s);
  Find c q s := (([], None), s);
|}.

(** A [Child] whose [AfterFind] hook fails. *)
Definition unfindable : Document :=
  mkDocument (VObjectID "c1") Fixtures.child_fields
    (Some (λ _, [Fixtures.cascadeSingle ∅ false]))
    (Some (λ _, Some "after find failed"%string)).

Definition three_configs : list CascadeConfig :=
  [Fixtures.cascadeSingle ∅ false; Fixtures.cascadeBroken;
   Fixtures.cascadeMulti ∅ false].

(** The child moves from parent "p2" to parent "p1". *)
Definition movedSingle : CascadeConfig :=
  Fixtures.cascadeSingle (Fixtures.byID "p2") false.

Definition movedMulti : CascadeConfig :=
  Fixtures.cascadeMulti (Fixtures.byID "p2") false.

(** A new document, never saved. *)
Definition fresh_base : Lifecycle.DocumentBase :=
  Lifecycle.mkDocumentBase Lifecycle.NilObjectID 0 0 0 false.

Definition no_hooks : Persist.HookedDocument := Fixtures.hooked Fixtures.plain None true.

End Examples.

(** * Properties *)

(** ** The per-config save and the operations it issues *)

Section SaveOps.
Context {St : Type} (D : Driver St).

(** Logging does not change what a driver does. *)
Lemma cascadeSaveWithConfig_logged conf doc s log :
  cascadeSaveWithConfig (D := logged D) conf doc (s, log) =
  let '(r, s') := cascadeSaveWithConfig conf doc s in (r, (s', log ++ save_ops conf)).
Proof.
  unfold cascadeSaveWithConfig, save_ops, stops_after_cleanup.
  destruct (RelType conf =? REL_ONE); [|destruct (RelType conf =? REL_MANY)];
    cbn [UpdateMany logged fst snd];
    repeat first
      [ progress rewrite ?app_nil_r, <- ?app_assoc
      | match goal with
        | |- context [UpdateMany ?c ?q ?u ?s] =>
            destruct (UpdateMany c q u s) as [[? ?] ?]; cbn [fst snd]
        | |- context [(0 <? size (OldQuery conf))%nat] =>
            destruct (0 <? size (OldQuery conf))%nat; cbn [fst snd andb app]
        | |- context [RemoveOnly conf] =>
            destruct (RemoveOnly conf); cbn [fst snd andb app]
        end ];
    try reflexivity.
Qed.

End SaveOps.

(** In the [REL_MANY] path that reaches the push, the call returns what
    the push returned, on the store the dropped pull left. *)
Lemma cascadeSaveWithConfig_many {St} (D : Driver St) conf doc s :
  RelType conf = REL_MANY →
  stops_after_cleanup conf = false →
  let c := conf_Collection conf in
  let s1 :=
    if (0 <? size (OldQuery conf))%nat
    then snd (UpdateMany c (OldQuery conf) (pull_update conf) s) else s in
  cascadeSaveWithConfig conf doc s =
  UpdateMany c (Query conf) (push_update conf)
    (snd (UpdateMany c (Query conf) (pull_update conf) s1)).
Proof.
  intros Hrel Hstop. unfold cascadeSaveWithConfig, stops_after_cleanup in *.
  rewrite Hrel. cbn [Z.eqb REL_MANY REL_ONE].
  fold (pull_update conf) (push_update conf).
  destruct (0 <? size (OldQuery conf))%nat; cbn [andb] in Hstop; cbn zeta.
  - rewrite Hstop.
    destruct (UpdateMany _ (OldQuery conf) _ s) as [[? ?] s1]. cbn [snd].
    by destruct (UpdateMany _ (Query conf) (pull_update conf) s1) as [[? ?] ?].
  - by destruct (UpdateMany _ (Query conf) (pull_update conf) s) as [[? ?] ?].
Qed.

(** A document with a single config that has its own reference query and
    does not nest: [CascadeSave] returns the error of the per-config save. *)
Lemma CascadeSave_single {St} (D : Driver St) fuel collection doc conf s :
  GetCascade doc = Some (λ _, [conf]) →
  ReferenceQuery conf ≠ [] →
  Nest conf = false →
  CascadeSave (S fuel) collection (Some doc) s =
  Some (snd (fst (cascadeSaveWithConfig conf doc s)),
        snd (cascadeSaveWithConfig conf doc s)).
Proof.
  intros Hc Hrq Hnest. cbn [CascadeSave]. rewrite Hc. cbn [save_configs].
  unfold default_reference. destruct (ReferenceQuery conf) as [|rf rq] eqn:E; [done|].
  cbn [length Nat.eqb]. rewrite Hnest.
  destruct (cascadeSaveWithConfig conf doc s) as [[res [e|]] s']; done.
Qed.

(** C10.  In the [REL_MANY] save path the pull issued against the current
    [Query] targets has its result and error discarded: when that pull
    fails at the store and the final push succeeds, the per-config save
    returns a nil error, and so does [CascadeSave]. *)
Theorem many_pull_error_is_dropped {St} (D : Driver St) conf doc s :
  RelType conf = REL_MANY →
  stops_after_cleanup conf = false →
  let c := conf_Collection conf in
  let s1 :=
    if (0 <? size (OldQuery conf))%nat
    then snd (UpdateMany c (OldQuery conf) (pull_update conf) s) else s in
  ∀ r e s2 r' s3,
    UpdateMany c (Query conf) (pull_update conf) s1 = (r, Some e, s2) →
    UpdateMany c (Query conf) (push_update conf) s2 = (r', None, s3) →
    cascadeSaveWithConfig conf doc s = (r', None, s3)
    ∧ ∀ fuel collection,
        GetCascade doc = Some (λ _, [conf]) →
        ReferenceQuery conf ≠ [] →
        Nest conf = false →
        CascadeSave (S fuel) collection (Some doc) s = Some (None, s3).
Proof.
  intros Hrel Hstop c s1 r e s2 r' s3 Hpull Hpush.
  assert (Hsave : cascadeSaveWithConfig conf doc s = (r', None, s3)).
  { rewrite cascadeSaveWithConfig_many by done.
    fold c. fold s1. by rewrite Hpull. }
  split; [done|]. intros fuel collection Hc Hrq Hnest.
  rewrite (CascadeSave_single D fuel collection doc conf s) by done.
  by rewrite Hsave.
Qed.

Lemma many_pull_error_is_dropped_witness :
  let conf := Fixtures.cascadeMulti ∅ false in
  let doc := Fixtures.child_with [conf] in
  fst (UpdateMany (Driver := Fixtures.pull_fails) Fixtures.parents
         (Fixtures.byID "p1") (pull_update conf) Fixtures.store0)
  = (UpdateResult_zero, Some "connection reset by peer"%string)
  ∧ CascadeSave (D := Fixtures.pull_fails) 1 Fixtures.parents (Some doc)
      Fixtures.store0
    = Some (None,
            snd (UpdateMany (Driver := Mongo.driver) Fixtures.parents
                   (Fixtures.byID "p1") (push_update conf) Fixtures.store0)).
Proof.
  intros conf doc. split; [reflexivity|].
  refine (proj2 (many_pull_error_is_dropped Fixtures.pull_fails conf doc
                   Fixtures.store0 _ _
                   UpdateResult_zero "connection reset by peer"%string
                   Fixtures.store0
                   (fst (fst (UpdateMany (Driver := Mongo.driver) Fixtures.parents
                                (Fixtures.byID "p1") (push_update conf)
                                Fixtures.store0)))
                   _ _ _) 0%nat Fixtures.parents _ _ _);
    first [reflexivity | discriminate].
Defined.

(** C6.  For a document that does not implement [GetCascade],
    [CascadeSave] returns nil and [CascadeDelete] returns, and neither
    issues any operation: the store and the log of operations are as
    before. *)
Theorem noncascading_is_noop {St} (D : Driver St) fuel collection doc s log :
  GetCascade doc = None →
  CascadeSave (D := logged D) fuel collection (Some doc) (s, log) = Some (None, (s, log))
  ∧ CascadeDelete (D := logged D) collection doc (s, log) = (Returned, (s, log)).
Proof.
  intros Hnone. split.
  - destruct fuel; cbn [CascadeSave]; by rewrite Hnone.
  - unfold CascadeDelete. by rewrite Hnone.
Qed.

Lemma noncascading_is_noop_witness :
  CascadeSave (D := logged Mongo.driver) 3 Fixtures.children (Some Fixtures.plain)
    (Fixtures.store0, []) = Some (None, (Fixtures.store0, []))
  ∧ CascadeDelete (D := logged Mongo.driver) Fixtures.children Fixtures.plain
      (Fixtures.store0, []) = (Returned, (Fixtures.store0, [])).
Proof.
  apply (noncascading_is_noop Mongo.driver 3 Fixtures.children Fixtures.plain
           Fixtures.store0 []).
  reflexivity.
Defined.

(** ** The reference store under pull-then-push *)

Section MongoFacts.
Implicit Types (q rq d : bsonM) (p : string) (v : value).

Lemma matches_insert_other q p x d :
  q !! p = None → Mongo.matches q (<[p := x]> d) = Mongo.matches q d.
Proof.
  intros Hq. unfold Mongo.matches. apply bool_decide_ext.
  unfold map_Forall. split; intros H k w Hk; specialize (H k w Hk).
  - rewrite lookup_insert_ne in H; [done|]. intros ->. congruence.
  - rewrite lookup_insert_ne; [done|]. intros ->. congruence.
Qed.

Lemma docs_of_insert c docs (st : Mongo.store) :
  Mongo.docs_of c (<[c := docs]> st) = docs.
Proof. unfold Mongo.docs_of. by rewrite lookup_insert_eq. Qed.



End MongoFacts.

(** ** MANY configs: pull, then push *)




(** ** RemoveOnly *)

(** C2 fails on the code at configs with [RemoveOnly] true and an empty
    [OldQuery]: the check of [RemoveOnly] sits inside
    [if len(conf.OldQuery) > 0], so the new embed is written all the same,
    by a [$set] of [Data] for [REL_ONE] and by the pull and the [$push] of
    [Data] for [REL_MANY]. *)
Theorem remove_only_without_old_query_writes :
  let one := Fixtures.cascadeSingle ∅ true in
  let many := Fixtures.cascadeMulti ∅ true in
  RemoveOnly one = true ∧ RemoveOnly many = true
  ∧ snd (snd (cascadeSaveWithConfig (D := logged Mongo.driver) one Fixtures.child
                (Fixtures.store0, [])))
    = [Op_UpdateMany Fixtures.parents (Fixtures.byID "p1")
         (U_set {[ "child" := Fixtures.ref ]})]
  ∧ snd (snd (cascadeSaveWithConfig (D := logged Mongo.driver) many Fixtures.child
                (Fixtures.store0, [])))
    = [Op_UpdateMany Fixtures.parents (Fixtures.byID "p1") (pull_update many);
       Op_UpdateMany Fixtures.parents (Fixtures.byID "p1")
         (U_push {[ "children" := Fixtures.ref ]})]
  ∧ Mongo.docs_of Fixtures.parents
      (snd (cascadeSaveWithConfig (D := Mongo.driver) one Fixtures.child
              Fixtures.store0))
    = [<["child" := Fixtures.ref]> Fixtures.parent1; Fixtures.parent2].
Proof. cbv zeta. repeat apply conj; vm_compute; reflexivity. Qed.

(** With [OldQuery] set, [RemoveOnly] does stop the save after the
    clean-up. *)
Lemma remove_only_with_old_query conf :
  RemoveOnly conf = true →
  (0 <? size (OldQuery conf))%nat = true →
  save_ops conf =
    if RelType conf =? REL_ONE
    then [Op_UpdateMany (conf_Collection conf) (OldQuery conf) (nullify_update conf)]
    else if RelType conf =? REL_MANY
    then [Op_UpdateMany (conf_Collection conf) (OldQuery conf) (pull_update conf)]
    else [].
Proof.
  intros Hro Hold. unfold save_ops, stops_after_cleanup. rewrite Hro, Hold.
  cbn [andb]. by rewrite !app_nil_r.
Qed.

(** ** CascadeSave: order and first error *)

Section SaveOrder.
Context {St : Type} (D : Driver St).
Implicit Types (rec : Collection → option Document → St → save_run (St := St)).

(** The configs run in order: a list of configs is its prefix, then, if
    the prefix returned no error, the rest from the store the prefix
    left. *)
Lemma save_configs_app rec pre rest doc s :
  save_configs rec (pre ++ rest) doc s =
  match save_configs rec pre doc s with
  | Some (None, s1) => save_configs rec rest doc s1
  | other => other
  end.
Proof.
  revert s. induction pre as [|conf pre IH]; intros s; [done|].
  cbn [app save_configs].
  destruct (cascadeSaveWithConfig _ doc s) as [[res [e|]] s1]; [done|].
  destruct (Nest _); [|apply IH].
  destruct (Find _ _ s1) as [[results [e|]] s2]; [done|].
  destruct (nested_loop _ _ _ results s2) as [[[e|] s3]|]; done.
Qed.

(** A failing config ends the run, whatever follows it. *)
Lemma save_configs_fails rec conf post doc s e s' :
  save_configs rec [conf] doc s = Some (Some e, s') →
  save_configs rec (conf :: post) doc s = Some (Some e, s').
Proof.
  intros H. change (conf :: post) with ([conf] ++ post).
  by rewrite save_configs_app, H.
Qed.

End SaveOrder.

(** C5.  [CascadeSave] runs the configs of a document in order and
    returns the first error, be it of a per-config save, of the [Find] that
    starts a nested cascade, or of a nested cascade itself.  The store is
    then the one the failing config left, reached from the one the earlier
    configs left: their effects stay, and the later configs do not run
    (what they are does not enter the result). *)
Theorem cascade_save_first_error {St} (D : Driver St) fuel collection doc
    getCascade pre conf post s s1 :
  GetCascade doc = Some getCascade →
  getCascade collection = pre ++ conf :: post →
  save_configs (CascadeSave fuel) pre doc s = Some (None, s1) →
  let conf' := default_reference conf (GetID doc) in
  (∀ r e s2,
     cascadeSaveWithConfig conf' doc s1 = (r, Some e, s2) →
     CascadeSave (S fuel) collection (Some doc) s = Some (Some e, s2))
  ∧ (∀ r s2 results e s3,
       cascadeSaveWithConfig conf' doc s1 = (r, None, s2) →
       Nest conf' = true →
       Find (conf_Collection conf') (Query conf') s2 = (results, Some e, s3) →
       CascadeSave (S fuel) collection (Some doc) s = Some (Some e, s3))
  ∧ (∀ e s2,
       save_configs (CascadeSave fuel) [conf] doc s1 = Some (Some e, s2) →
       CascadeSave (S fuel) collection (Some doc) s = Some (Some e, s2)).
Proof.
  intros Hc Hsplit Hpre conf'.
  assert (Hgen : ∀ e s2,
            save_configs (CascadeSave fuel) [conf] doc s1 = Some (Some e, s2) →
            CascadeSave (S fuel) collection (Some doc) s = Some (Some e, s2)).
  { intros e s2 Hconf. cbn [CascadeSave]. rewrite Hc, Hsplit.
    rewrite save_configs_app, Hpre. by apply save_configs_fails. }
  split; [|split]; [| |exact Hgen].
  - intros r e s2 Hsave. apply Hgen. cbn [save_configs]. fold conf'.
    by rewrite Hsave.
  - intros r s2 results e s3 Hsave Hnest Hfind. apply Hgen.
    cbn [save_configs]. fold conf'. by rewrite Hsave, Hnest, Hfind.
Qed.

Lemma cascade_save_first_error_witness :
  let toCascade := [Fixtures.cascadeSingle ∅ false; Fixtures.cascadeBroken;
                    Fixtures.cascadeMulti ∅ false] in
  let doc := Fixtures.child_with toCascade in
  let st' := snd (cascadeSaveWithConfig (D := Mongo.driver)
                    (default_reference (Fixtures.cascadeSingle ∅ false) (GetID doc))
                    doc Fixtures.store0) in
  CascadeSave (D := Mongo.driver) 1 Fixtures.parents (Some doc) Fixtures.store0
  = Some (Some "invalid relation type"%string, st')
  ∧ Mongo.docs_of Fixtures.parents st'
    = [<["child" := Fixtures.ref]> Fixtures.parent1; Fixtures.parent2].
Proof.
  intros toCascade doc st'. split; [|reflexivity].
  refine (proj1 (cascade_save_first_error Mongo.driver 0 Fixtures.parents doc
                   (λ _, toCascade)
                   [Fixtures.cascadeSingle ∅ false] Fixtures.cascadeBroken
                   [Fixtures.cascadeMulti ∅ false] Fixtures.store0 st'
                   _ _ _) UpdateResult_zero _ _ _);
    reflexivity.
Defined.

(** ** CascadeDelete: the default reference *)

Lemma delete_configs_app {St} (D : Driver St) pre rest doc s :
  delete_configs (pre ++ rest) doc s =
  match delete_configs pre doc s with
  | (Returned, s1) => delete_configs rest doc s1
  | other => other
  end.
Proof.
  revert s. induction pre as [|conf pre IH]; intros s; [done|].
  cbn [app delete_configs].
  destruct (length (ReferenceQuery conf) =? 0)%nat.
  - destruct (reflections_GetField doc "Id") as [id|err]; [|done].
    destruct (cascadeDeleteWithConfig _ s) as [[res e] s1]. apply IH.
  - destruct (cascadeDeleteWithConfig _ s) as [[res e] s1]. apply IH.
Qed.

(** C4, as amended.  In [CascadeDelete], a config with an empty
    [ReferenceQuery] gets the default reference [("_id", id)] with [id]
    read by reflection from the struct field [Id] of the document.  When
    that read fails, [CascadeDelete] panics with the reflection error: the
    configs before it have run, this one and the later ones have not, and
    there is no error result. *)
Theorem cascade_delete_default_reference {St} (D : Driver St) collection doc
    getCascade pre conf post s s1 :
  GetCascade doc = Some getCascade →
  getCascade collection = pre ++ conf :: post →
  delete_configs pre doc s = (Returned, s1) →
  ReferenceQuery conf = [] →
  (∀ err,
     reflections_GetField doc "Id" = inr err →
     CascadeDelete collection doc s = (Panicked err, s1))
  ∧ (∀ id,
       reflections_GetField doc "Id" = inl id →
       CascadeDelete collection doc s =
       delete_configs post doc
         (snd (cascadeDeleteWithConfig
                 (set_ReferenceQuery conf [mkReferenceField "_id" id]) s1))).
Proof.
  intros Hc Hsplit Hpre Hrq. unfold CascadeDelete.
  rewrite Hc, Hsplit, delete_configs_app, Hpre. cbn [delete_configs].
  rewrite Hrq. cbn [length Nat.eqb]. split.
  - intros err ->. done.
  - intros id ->.
    by destruct (cascadeDeleteWithConfig _ s1) as [[res e] s2].
Qed.

Lemma cascade_delete_default_reference_witness :
  let toCascade := [Fixtures.cascadeMulti ∅ false; Fixtures.cascadeSingle ∅ false] in
  CascadeDelete (D := logged Mongo.driver) Fixtures.parents
    (Fixtures.child_with toCascade) (Fixtures.store0, [])
  = (Panicked "No such field: Id in obj"%string,
     (Fixtures.store0,
      [Op_UpdateMany Fixtures.parents (Fixtures.byID "p1")
         (pull_update (Fixtures.cascadeMulti ∅ false))]))
  ∧ CascadeDelete (D := logged Mongo.driver) Fixtures.parents
      (Fixtures.with_Id [Fixtures.cascadeSingle ∅ false]) (Fixtures.store0, [])
    = (Returned,
       (<[Fixtures.parents := [<["child" := VNil]> Fixtures.parent1; Fixtures.parent2]]>
          Fixtures.store0,
        [Op_UpdateMany Fixtures.parents (Fixtures.byID "p1")
           (U_set {[ "child" := VNil ]})])).
Proof.
  intros toCascade. split.
  - refine (proj1 (cascade_delete_default_reference (logged Mongo.driver)
                     Fixtures.parents (Fixtures.child_with toCascade)
                     (λ _, toCascade)
                     [Fixtures.cascadeMulti ∅ false] (Fixtures.cascadeSingle ∅ false) []
                     (Fixtures.store0, [])
                     (Fixtures.store0,
                      [Op_UpdateMany Fixtures.parents (Fixtures.byID "p1")
                         (pull_update (Fixtures.cascadeMulti ∅ false))])
                     _ _ _ _) _ _);
      reflexivity.
  - rewrite (proj2 (cascade_delete_default_reference (logged Mongo.driver)
                      Fixtures.parents
                      (Fixtures.with_Id [Fixtures.cascadeSingle ∅ false])
                      (λ _, [Fixtures.cascadeSingle ∅ false])
                      [] (Fixtures.cascadeSingle ∅ false) []
                      (Fixtures.store0, []) (Fixtures.store0, [])
                      eq_refl eq_refl eq_refl eq_refl) (VObjectID "c1") eq_refl).
    reflexivity.
Defined.

(** C4, as stated, fails: the [Child] of the test suite has the struct
    field [ID], not [Id], and its first config has no [ReferenceQuery];
    [CascadeDelete] ends in a panic, not in an error result, before it has
    issued anything. *)
Lemma cascade_delete_panics :
  reflections_GetField Fixtures.child "Id" = inr "No such field: Id in obj"%string
  ∧ CascadeDelete (D := logged Mongo.driver) Fixtures.parents Fixtures.child
      (Fixtures.store0, [])
    = (Panicked "No such field: Id in obj"%string, (Fixtures.store0, [])).
Proof. split; reflexivity. Qed.

(** ** The field-path projector *)

Lemma split_dot_no_dot s : has_dot s = false → split_dot s = [s].
Proof.
  induction s as [|c s IH]; [done|]. cbn [has_dot split_dot].
  destruct (Ascii.eqb c "."); [done|]. cbn [orb]. intros H.
  by rewrite (IH H).
Qed.

Lemma split_dot_length s : (1 ≤ length (split_dot s))%nat.
Proof.
  induction s as [|c s IH]; cbn [split_dot length]; [lia|].
  destruct (Ascii.eqb c "."); cbn [length]; [lia|].
  destruct (split_dot s); cbn [length] in *; lia.
Qed.

Lemma split_dot_has_dot s : has_dot s = true → (1 < length (split_dot s))%nat.
Proof.
  induction s as [|c s IH]; [done|]. cbn [has_dot split_dot].
  destruct (Ascii.eqb c "."); cbn [orb length].
  - intros _. pose proof (split_dot_length s). lia.
  - intros H. specialize (IH H). destruct (split_dot s); cbn [length] in *; lia.
Qed.

Lemma set_nested_conflict split actualProp val curData :
  conflicts split curData = true →
  set_nested split actualProp val curData = Panic dot_panic.
Proof.
  revert curData. induction split as [|s split IH]; intros curData; [done|].
  cbn [conflicts set_nested]. destruct (curData !! s) as [[v|mapped]|]; try done.
  intros H. by rewrite (IH _ H).
Qed.

Lemma set_nested_no_conflict split actualProp val curData :
  conflicts split curData = false →
  ∃ data, set_nested split actualProp val curData = Projected data.
Proof.
  revert curData. induction split as [|s split IH]; intros curData.
  - intros _. by eexists.
  - cbn [conflicts set_nested]. destruct (curData !! s) as [[v|mapped]|]; try done.
    + intros H. destruct (IH _ H) as [m ->]. by eexists.
    + intros _. destruct (IH ∅) as [m ->]; [by destruct split|]. by eexists.
Qed.

Lemma set_nested_fresh split actualProp val :
  set_nested split actualProp val ∅ = Projected (nest split actualProp val).
Proof.
  induction split as [|s split IH]; [done|].
  cbn [set_nested nest]. by rewrite lookup_empty, IH.
Qed.

Section ProjectorFacts.
Variable dotaccess_Get : Document → string → value * option error.

Lemma project_props_app doc pre rest data :
  project_props dotaccess_Get doc (pre ++ rest) data =
  match project_props dotaccess_Get doc pre data with
  | Projected data' => project_props dotaccess_Get doc rest data'
  | Panic msg => Panic msg
  end.
Proof.
  revert data. induction pre as [|prop pre IH]; intros data; [done|].
  cbn [app project_props].
  destruct (project_prop dotaccess_Get doc data prop); [apply IH|done].
Qed.

Lemma project_prop_multi doc data prop :
  has_dot prop = true →
  project_prop dotaccess_Get doc data prop =
  set_nested (List.removelast (split_dot prop)) (List.last (split_dot prop) EmptyString)
    (fst (dotaccess_Get doc prop)) data.
Proof.
  intros H. apply split_dot_has_dot in H. unfold project_prop.
  destruct (length (split_dot prop) =? 1)%nat eqn:E; [|done].
  apply Nat.eqb_eq in E. lia.
Qed.

(** C7, as amended.  When a multi-segment path meets, at one of its
    intermediate segments, a key of the map under construction that holds
    a value that is not a map, [MapFromCascadeProperties] panics with
    "Cannot access non-map property via dot notation": nothing is
    overwritten and no map is returned; it has no error result.  Without
    such a key the path is projected. *)
Theorem dot_path_conflict_panics doc pre prop post data :
  project_props dotaccess_Get doc pre ∅ = Projected data →
  has_dot prop = true →
  (conflicts (List.removelast (split_dot prop)) data = true →
   MapFromCascadeProperties dotaccess_Get (pre ++ prop :: post) doc = Panic dot_panic)
  ∧ (conflicts (List.removelast (split_dot prop)) data = false →
     ∃ data', project_prop dotaccess_Get doc data prop = Projected data').
Proof.
  intros Hpre Hdot. split; intros Hc.
  - unfold MapFromCascadeProperties. rewrite project_props_app, Hpre.
    cbn [project_props]. rewrite project_prop_multi by done.
    by rewrite set_nested_conflict.
  - rewrite project_prop_multi by done. by apply set_nested_no_conflict.
Qed.

(** C8.  A path without a dot becomes a top-level key holding the
    resolved value; a path with dots becomes one mapping level per segment
    but the last, the last segment being the leaf key; and projecting
    [["a"; "b.c"]] yields [{"a": x, "b": {"c": y}}] for [x] and [y] the
    values resolved for [a] and [b.c]. *)
Theorem projector_builds_nested_map doc :
  (∀ data prop,
     has_dot prop = false →
     project_prop dotaccess_Get doc data prop =
     Projected (<[prop := PVal (fst (dotaccess_Get doc prop))]> data))
  ∧ (∀ prop,
       has_dot prop = true →
       MapFromCascadeProperties dotaccess_Get [prop] doc =
       Projected (nest (List.removelast (split_dot prop))
                    (List.last (split_dot prop) EmptyString)
                    (fst (dotaccess_Get doc prop))))
  ∧ (∀ x y,
       fst (dotaccess_Get doc "a") = x →
       fst (dotaccess_Get doc "b.c") = y →
       MapFromCascadeProperties dotaccess_Get ["a"; "b.c"] doc =
       Projected {[ "a" := PVal x; "b" := PMap {[ "c" := PVal y ]} ]}).
Proof.
  split; [|split].
  - intros data prop H. unfold project_prop. by rewrite split_dot_no_dot.
  - intros prop H. unfold MapFromCascadeProperties. cbn [project_props].
    rewrite project_prop_multi by done. by rewrite set_nested_fresh.
  - intros x y <- <-. reflexivity.
Qed.

End ProjectorFacts.

Lemma dot_path_conflict_panics_witness :
  MapFromCascadeProperties get_dotted ["a"; "a.z"; "b.c"] Fixtures.nested
  = Panic dot_panic.
Proof.
  refine (proj1 (dot_path_conflict_panics get_dotted Fixtures.nested
                   ["a"] "a.z" ["b.c"] {[ "a" := PVal (VStr "x") ]} _ _) _);
    reflexivity.
Defined.

(** C7, as stated, fails: the conflict is not an error result of the
    projector but a panic. *)
Lemma dot_path_conflict_is_a_panic :
  MapFromCascadeProperties get_dotted ["a"; "a.z"] Fixtures.nested
  = Panic "Cannot access non-map property via dot notation".
Proof. reflexivity. Qed.

Lemma projector_builds_nested_map_witness :
  MapFromCascadeProperties get_dotted ["a"; "b.c"] Fixtures.nested
  = Projected {[ "a" := PVal (VStr "x"); "b" := PMap {[ "c" := PVal (VStr "y") ]} ]}.
Proof.
  apply (projector_builds_nested_map get_dotted Fixtures.nested); reflexivity.
Defined.

(** ** The diff tracker *)

(** C9.  After [Reset()], [Modified(field)] is false for every field, and
    it stays false in every later state of the instance in which the
    field's live value is what it was at the reset; a tracked field whose
    live value is then changed is modified.  [Reset()] is [Capture] of the
    instance's current values, which become the baseline. *)
Theorem reset_then_unmodified t fieldName :
  DiffTracker.Modified fieldName (DiffTracker.Reset t) = false
  ∧ (∀ t',
       DiffTracker.snapshot t' = DiffTracker.snapshot (DiffTracker.Reset t) →
       DiffTracker.current t' !! fieldName = DiffTracker.current t !! fieldName →
       DiffTracker.Modified fieldName t' = false)
  ∧ (∀ v,
       is_Some (DiffTracker.current t !! fieldName) →
       DiffTracker.current t !! fieldName ≠ Some v →
       DiffTracker.Modified fieldName
         (DiffTracker.assign fieldName v (DiffTracker.Reset t)) = true)
  ∧ DiffTracker.Reset t = DiffTracker.Capture (DiffTracker.current t) t
  ∧ DiffTracker.snapshot (DiffTracker.Reset t) = DiffTracker.current t
  ∧ DiffTracker.GetOriginalValue fieldName (DiffTracker.Reset t)
    = match DiffTracker.current t !! fieldName with
      | Some v => (v, true)
      | None => (VNil, false)
      end.
Proof.
  assert (Hkeep : ∀ t',
            DiffTracker.snapshot t' = DiffTracker.snapshot (DiffTracker.Reset t) →
            DiffTracker.current t' !! fieldName = DiffTracker.current t !! fieldName →
            DiffTracker.Modified fieldName t' = false).
  { intros t' Hs Hc. unfold DiffTracker.Modified. rewrite Hs, Hc. cbn.
    destruct (DiffTracker.current t !! fieldName); [|done].
    apply bool_decide_eq_false. by intros []. }
  split; [by apply Hkeep|]. split; [exact Hkeep|]. split; [|done].
  intros v [old Hold] Hne. unfold DiffTracker.Modified. cbn.
  rewrite Hold, lookup_insert_eq. apply bool_decide_eq_true. congruence.
Qed.

Lemma reset_then_unmodified_witness :
  let t := DiffTracker.mkTracked {[ "ParentID" := VObjectID "p2" ]}
             {[ "ParentID" := VObjectID "p1" ]} in
  DiffTracker.Modified "ParentID" t = true
  ∧ DiffTracker.Modified "ParentID" (DiffTracker.Reset t) = false
  ∧ DiffTracker.Modified "ParentID"
      (DiffTracker.assign "Name" (VStr "Bar") (DiffTracker.Reset t)) = false
  ∧ DiffTracker.Modified "ParentID"
      (DiffTracker.assign "ParentID" (VObjectID "p1") (DiffTracker.Reset t)) = true.
Proof.
  intros t.
  destruct (reset_then_unmodified t "ParentID") as (Hreset & Hkeep & Hchange & _).
  split; [reflexivity|]. split; [exact Hreset|]. split.
  - apply Hkeep; reflexivity.
  - apply Hchange; [by eexists | discriminate].
Defined.

(** ** Save and DeleteDocument: when the cascade is launched *)

(** The order of launch and primary operation in both calls, for every
    document.  [DeleteDocument] detaches [CascadeDelete] only after
    [DeleteOne] has been issued and has returned no error.  [Save]
    detaches [CascadeSave] as soon as [PreSave] has succeeded, before the
    upsert is issued: whenever [Save] gets past [PreSave] the launch is its
    first event, followed by the upsert or, when the new-tracker check
    fails, by nothing.  Each call only detaches the orchestrator: what it
    returns depends on the hooks and on the primary operation alone. *)
Theorem cascade_launch_order c doc primary :
  Persist.launched_after_primary false (snd (Persist.DeleteDocument c doc primary)) = true
  ∧ (Persist.run_hook (Persist.BeforeDelete doc) c = None →
     primary = None →
     snd (Persist.DeleteDocument c doc primary)
     = [Persist.DeleteOne c None; Persist.Go_CascadeDelete c (Persist.document doc)])
  ∧ (Persist.PreSave c doc = None →
     ∃ rest,
       snd (Persist.Save c doc primary)
       = Persist.Go_CascadeSave c (Persist.document doc) :: rest
       ∧ (rest = [] ∨ rest = [Persist.UpsertId c primary]))
  ∧ (∀ e, Persist.PreSave c doc = Some e → Persist.Save c doc primary = (Some e, [])).
Proof.
  split; [|split; [|split]].
  - unfold Persist.DeleteDocument.
    destruct (Persist.run_hook _ c); [done|]. by destruct primary.
  - intros Hhook ->. unfold Persist.DeleteDocument. by rewrite Hhook.
  - intros Hpre. unfold Persist.Save. rewrite Hpre.
    destruct (negb _ && _); [by eexists; eauto|].
    destruct primary; eexists; eauto.
  - intros e Hpre. unfold Persist.Save. by rewrite Hpre.
Qed.

Lemma cascade_launch_order_witness :
  let doc := Fixtures.hooked Fixtures.child None true in
  snd (Persist.DeleteDocument Fixtures.children doc None)
  = [Persist.DeleteOne Fixtures.children None;
     Persist.Go_CascadeDelete Fixtures.children Fixtures.child]
  ∧ ∃ rest,
      snd (Persist.Save Fixtures.children doc None)
      = Persist.Go_CascadeSave Fixtures.children Fixtures.child :: rest
      ∧ (rest = [] ∨ rest = [Persist.UpsertId Fixtures.children None]).
Proof.
  intros doc.
  destruct (cascade_launch_order Fixtures.children doc None) as (_ & Hdel & Hsave & _).
  split; [apply Hdel; reflexivity | apply Hsave; reflexivity].
Defined.

(** C3.  The code breaks the claim in [Save]: its [go CascadeSave] stands
    before the upsert, so the cascade is launched before the primary
    mutation, whether that upsert then succeeds, fails, or is never
    issued (a document that is not new and has no id).  [DeleteDocument],
    on the same document, does what the claim says: no launch when
    [DeleteOne] fails, and the launch after it when it succeeds. *)
Lemma save_launches_before_upsert :
  let fresh := Fixtures.hooked Fixtures.child None true in
  let stale := Fixtures.hooked Fixtures.child (Some false) true in
  Persist.Save Fixtures.children fresh None
  = (None, [Persist.Go_CascadeSave Fixtures.children Fixtures.child;
            Persist.UpsertId Fixtures.children None])
  ∧ Persist.launched_after_primary false
      (snd (Persist.Save Fixtures.children fresh None)) = false
  ∧ Persist.Save Fixtures.children fresh (Some "write failed"%string)
    = (Some "write failed"%string,
       [Persist.Go_CascadeSave Fixtures.children Fixtures.child;
        Persist.UpsertId Fixtures.children (Some "write failed"%string)])
  ∧ Persist.Save Fixtures.children stale None
    = (Some "New tracker says this document isn't new but there is no valid Id field"%string,
       [Persist.Go_CascadeSave Fixtures.children Fixtures.child])
  ∧ Persist.DeleteDocument Fixtures.children fresh (Some "write failed"%string)
    = (Some "write failed"%string,
       [Persist.DeleteOne Fixtures.children (Some "write failed"%string)])
  ∧ Persist.DeleteDocument Fixtures.children fresh None
    = (None, [Persist.DeleteOne Fixtures.children None;
              Persist.Go_CascadeDelete Fixtures.children Fixtures.child])
  ∧ Persist.launched_after_primary false
      (snd (Persist.DeleteDocument Fixtures.children fresh None)) = true.
Proof. repeat split. Qed.

(** * Further properties of the cascade *)

Section CascadeOps.
Context {St : Type} (D : Driver St).

Lemma cascadeDeleteWithConfig_logged conf s log :
  cascadeDeleteWithConfig (D := logged D) conf (s, log) =
  let '(r, s') := cascadeDeleteWithConfig conf s in (r, (s', log ++ delete_ops conf)).
Proof.
  unfold cascadeDeleteWithConfig, delete_ops.
  destruct (RelType conf =? REL_ONE); [|destruct (RelType conf =? REL_MANY)];
    cbn [UpdateMany logged fst snd]; rewrite ?app_nil_r; try done;
    by destruct (UpdateMany _ _ _ s) as [[? ?] ?].
Qed.

Lemma valid_RelType_cases conf :
  valid_RelType conf →
  (RelType conf =? REL_ONE) = true
  ∨ (RelType conf =? REL_ONE) = false ∧ (RelType conf =? REL_MANY) = true.
Proof. intros [H|H]; rewrite H; [by left | by right]. Qed.

(** X1.  A config whose relation type is neither [REL_ONE] nor
    [REL_MANY] makes the per-config save and the per-config delete return
    the error "invalid relation type" without asking anything of the
    store. *)
Theorem invalid_relation_type_issues_nothing conf doc s log :
  RelType conf ≠ REL_ONE →
  RelType conf ≠ REL_MANY →
  cascadeSaveWithConfig (D := logged D) conf doc (s, log)
  = ((UpdateResult_zero, Some "invalid relation type"%string), (s, log))
  ∧ cascadeDeleteWithConfig (D := logged D) conf (s, log)
    = ((UpdateResult_zero, Some "invalid relation type"%string), (s, log)).
Proof.
  intros H1 H2. unfold cascadeSaveWithConfig, cascadeDeleteWithConfig.
  apply Z.eqb_neq in H1, H2. by rewrite H1, H2.
Qed.

(** X2.  With [OldQuery] set and [RemoveOnly] false, the result and the
    error of the clean-up at the previous owners are dropped: the save
    returns what its last update returns, on the store the clean-up
    left. *)
Theorem cleanup_error_is_dropped conf doc s r e s1 :
  valid_RelType conf →
  (0 <? size (OldQuery conf))%nat = true →
  RemoveOnly conf = false →
  UpdateMany (conf_Collection conf) (OldQuery conf) (cleanup_update conf) s
  = (r, Some e, s1) →
  cascadeSaveWithConfig conf doc s =
  if RelType conf =? REL_ONE
  then UpdateMany (conf_Collection conf) (Query conf) (embed_update conf) s1
  else UpdateMany (conf_Collection conf) (Query conf) (push_update conf)
         (snd (UpdateMany (conf_Collection conf) (Query conf) (pull_update conf) s1)).
Proof.
  intros Hvalid Hold Hro. unfold cascadeSaveWithConfig, cleanup_update.
  fold (pull_update conf) (push_update conf) (embed_update conf).
  rewrite Hold, Hro.
  destruct (valid_RelType_cases conf Hvalid) as [->|[-> ->]]; intros ->; [done|].
  by destruct (UpdateMany _ (Query conf) (pull_update conf) s1) as [[? ?] ?].
Qed.

(** X3.  With [OldQuery] set and [RemoveOnly] true, the save is the
    clean-up at the previous owners and nothing else: it returns that
    update's result and error, on the store it left. *)
Theorem remove_only_is_the_cleanup conf doc s :
  valid_RelType conf →
  (0 <? size (OldQuery conf))%nat = true →
  RemoveOnly conf = true →
  cascadeSaveWithConfig conf doc s =
  UpdateMany (conf_Collection conf) (OldQuery conf) (cleanup_update conf) s.
Proof.
  intros Hvalid Hold Hro. unfold cascadeSaveWithConfig, cleanup_update.
  fold (pull_update conf). rewrite Hold, Hro.
  destruct (valid_RelType_cases conf Hvalid) as [->|[-> ->]];
    by destruct (UpdateMany _ (OldQuery conf) _ s) as [[? ?] ?].
Qed.

Lemma delete_configs_logged confs doc id s log :
  (reflections_GetField doc "Id" = inl id
   ∨ Forall (λ conf, ReferenceQuery conf ≠ []) confs) →
  ∃ s',
    delete_configs (D := logged D) confs doc (s, log)
    = (Returned,
       (s', log ++ flat_map (λ conf, delete_ops (default_reference conf id)) confs)).
Proof.
  intros Hid. revert s log. induction confs as [|conf confs IH]; intros s log.
  - eexists. cbn. by rewrite app_nil_r.
  - cbn [delete_configs flat_map].
    assert (Hconf :
      (if (length (ReferenceQuery conf) =? 0)%nat
       then match reflections_GetField doc "Id" with
            | inl id0 => inl (set_ReferenceQuery conf [mkReferenceField "_id" id0])
            | inr err => inr err
            end
       else inl conf) = (inl (default_reference conf id) : CascadeConfig + error)).
    { unfold default_reference.
      destruct (length (ReferenceQuery conf) =? 0)%nat eqn:E; [|done].
      destruct Hid as [->|Hall]; [done|].
      apply Forall_cons in Hall as [Hne _]. apply Nat.eqb_eq in E.
      by destruct (ReferenceQuery conf). }
    rewrite Hconf, cascadeDeleteWithConfig_logged.
    destruct (cascadeDeleteWithConfig _ s) as [[r e] s1].
    destruct (IH (match Hid with
                  | or_introl H => or_introl H
                  | or_intror H => or_intror (Forall_inv_tail H)
                  end) s1 (log ++ delete_ops (default_reference conf id))) as [s' ->].
    eexists. by rewrite <- app_assoc.
Qed.

(** X4.  When the identifier can be read (or no config needs it),
    [CascadeDelete] returns after having issued, for each config in order,
    its one update: the result and the error of each are dropped, so a
    config that fails, or whose relation type is invalid, does not stop the
    ones after it; and no [Find] is issued, whatever [Nest] says. *)
Theorem cascade_delete_runs_every_config collection doc getCascade id s log :
  GetCascade doc = Some getCascade →
  (reflections_GetField doc "Id" = inl id
   ∨ Forall (λ conf, ReferenceQuery conf ≠ []) (getCascade collection)) →
  ∃ s',
    CascadeDelete (D := logged D) collection doc (s, log)
    = (Returned,
       (s', log ++ flat_map (λ conf, delete_ops (default_reference conf id))
                     (getCascade collection))).
Proof.
  intros Hc Hid. unfold CascadeDelete. rewrite Hc.
  by apply delete_configs_logged.
Qed.

End CascadeOps.

Section CascadeRuns.
Context {St : Type} (D : Driver St).
Implicit Types (rec : Collection → option Document → St → save_run (St := St)).

Lemma default_reference_fields conf id :
  Nest (default_reference conf id) = Nest conf
  ∧ RelType (default_reference conf id) = RelType conf
  ∧ conf_Collection (default_reference conf id) = conf_Collection conf
  ∧ Query (default_reference conf id) = Query conf
  ∧ conf_Instance (default_reference conf id) = conf_Instance conf.
Proof. unfold default_reference. by destruct (length _ =? 0)%nat. Qed.

Lemma cascadeSaveWithConfig_reliable conf doc s :
  reliable D → valid_RelType conf →
  snd (fst (cascadeSaveWithConfig conf doc s)) = None.
Proof.
  intros Hrel Hvalid. unfold cascadeSaveWithConfig.
  destruct (valid_RelType_cases conf Hvalid) as [->|[-> ->]];
    destruct (0 <? size (OldQuery conf))%nat;
    repeat match goal with
      | |- context [UpdateMany ?c ?q ?u ?s] =>
          let H := fresh in
          pose proof (Hrel c q u s) as H;
          destruct (UpdateMany c q u s) as [[? ?] ?]; cbn [fst snd] in H; subst
      | |- context [RemoveOnly conf] => destruct (RemoveOnly conf)
      end;
    done.
Qed.

Lemma save_configs_flat_logged (rec : Collection → option Document → St * list op →
                                      save_run (St := St * list op))
    confs doc s log :
  reliable D →
  Forall (λ conf, Nest conf = false ∧ valid_RelType conf) confs →
  save_configs (D := logged D) rec confs doc (s, log)
  = Some (None,
          (saves_in_order (GetID doc) doc confs s,
           log ++ flat_map (λ conf, save_ops (default_reference conf (GetID doc)))
                    confs)).
Proof.
  intros Hrel Hall. revert s log.
  induction Hall as [|conf confs [Hnest Hvalid] _ IH]; intros s log.
  - cbn. by rewrite app_nil_r.
  - cbn [save_configs flat_map]. unfold saves_in_order. cbn [foldl].
    rewrite cascadeSaveWithConfig_logged.
    destruct (default_reference_fields conf (GetID doc)) as (Hn & Hr & _).
    pose proof (cascadeSaveWithConfig_reliable (default_reference conf (GetID doc))
                  doc s Hrel) as Hok.
    destruct (cascadeSaveWithConfig _ doc s) as [[r e] s1]. cbn [fst snd] in *.
    rewrite Hok by (unfold valid_RelType; by rewrite Hr).
    rewrite Hn, Hnest, IH. by rewrite <- app_assoc.
Qed.

(** X5.  On a driver whose updates return no error, [CascadeSave] of a
    document whose configs have a valid relation type and do not nest
    returns nil with every config saved in order: the store is the one the
    per-config saves leave one after the other, and the operations issued
    are those of each config in turn, with the reference defaulted to
    [("_id", GetID())] where the config has none. *)
Theorem cascade_save_runs_every_config fuel collection doc getCascade s log :
  GetCascade doc = Some getCascade →
  reliable D →
  Forall (λ conf, Nest conf = false ∧ valid_RelType conf) (getCascade collection) →
  CascadeSave (D := logged D) (S fuel) collection (Some doc) (s, log)
  = Some (None,
          (saves_in_order (GetID doc) doc (getCascade collection) s,
           log ++ flat_map (λ conf, save_ops (default_reference conf (GetID doc)))
                    (getCascade collection))).
Proof.
  intros Hc Hrel Hall. cbn [CascadeSave]. rewrite Hc.
  by apply save_configs_flat_logged.
Qed.

(** X6.  [ResultSet.Next] decodes nothing into the instance, so the
    nested loop calls [CascadeSave] on the same instance once per fetched
    document, until a call returns an error: the run depends on how many
    documents matched, not on what they hold. *)
Theorem nested_loop_counts_results rec coll inst results s :
  ResultSet_Next coll inst true = true →
  nested_loop rec coll inst results s
  = repeat_cascade rec coll inst (length results) s.
Proof.
  intros Hnext. revert s. induction results as [|r results IH]; intros s; [done|].
  cbn [nested_loop length repeat_cascade]. rewrite Hnext.
  destruct (rec coll inst s) as [[[e|] s']|]; done.
Qed.

(** X7.  When the [AfterFind] hook of the instance returns an error, the
    nested loop ends at once, without any nested cascade, and reports
    success: the hook's error is not returned. *)
Theorem after_find_error_ends_nesting rec coll d hook e results s :
  AfterFind d = Some hook →
  hook coll = Some e →
  nested_loop rec coll (Some d) results s = Some (None, s).
Proof.
  intros Hhook He. destruct results as [|r results]; [done|].
  cbn [nested_loop]. unfold ResultSet_Next. by rewrite Hhook, He.
Qed.

Lemma nested_loop_no_cascade fuel coll inst results s :
  no_cascade inst →
  nested_loop (CascadeSave fuel) coll inst results s = Some (None, s).
Proof.
  intros Hno. induction results as [|r results IH]; [done|].
  cbn [nested_loop]. destruct (ResultSet_Next coll inst true); [|done].
  assert (CascadeSave fuel coll inst s = Some (None, s)) as ->; [|done].
  destruct inst as [d|]; [|by destruct fuel].
  cbn in Hno. destruct fuel; cbn [CascadeSave]; by rewrite Hno.
Qed.

Lemma save_configs_shallow confs doc s :
  Forall (λ conf, Nest conf = false ∨ no_cascade (conf_Instance conf)) confs →
  ∃ r, ∀ fuel', save_configs (CascadeSave fuel') confs doc s = Some r.
Proof.
  intros Hall. revert s. induction Hall as [|conf confs Hconf _ IH]; intros s.
  - by eexists.
  - cbn [save_configs].
    destruct (default_reference_fields conf (GetID doc)) as (Hn & _ & _ & _ & Hi).
    destruct (cascadeSaveWithConfig _ doc s) as [[r [e|]] s1]; [by eexists|].
    rewrite Hn, Hi. destruct (Nest conf) eqn:Hnest; [|apply IH].
    destruct Hconf as [?|Hno]; [done|].
    destruct (Find _ _ s1) as [[results [e|]] s2]; [by eexists|].
    destruct (IH s2) as [r' Hr']. exists r'. intros fuel'.
    by rewrite nested_loop_no_cascade.
Qed.

(** X8.  [CascadeSave] returns, within one level of nesting, for every
    document each of whose configs either does not nest or names an
    instance that cannot cascade (nil, or of a type without [GetCascade]);
    a larger nesting budget gives the same result. *)
Theorem cascade_save_returns_when_shallow collection doc getCascade s :
  GetCascade doc = Some getCascade →
  Forall (λ conf, Nest conf = false ∨ no_cascade (conf_Instance conf))
    (getCascade collection) →
  ∃ r, ∀ fuel, CascadeSave (S fuel) collection (Some doc) s = Some r.
Proof.
  intros Hc Hall.
  destruct (save_configs_shallow (getCascade collection) doc s Hall) as [r Hr].
  exists r. intros fuel. cbn [CascadeSave]. by rewrite Hc.
Qed.

Lemma nested_loop_mono rec rec' coll inst results s r :
  (∀ c d s r, rec c d s = Some r → rec' c d s = Some r) →
  nested_loop rec coll inst results s = Some r →
  nested_loop rec' coll inst results s = Some r.
Proof.
  intros Hrec. revert s. induction results as [|x results IH]; intros s; [done|].
  cbn [nested_loop]. destruct (ResultSet_Next coll inst true); [|done].
  destruct (rec coll inst s) as [[[e|] s']|] eqn:E; [| |done].
  - by rewrite (Hrec _ _ _ _ E).
  - rewrite (Hrec _ _ _ _ E). apply IH.
Qed.

Lemma save_configs_mono rec rec' confs doc s r :
  (∀ c d s r, rec c d s = Some r → rec' c d s = Some r) →
  save_configs rec confs doc s = Some r →
  save_configs rec' confs doc s = Some r.
Proof.
  intros Hrec. revert s. induction confs as [|conf confs IH]; intros s; [done|].
  cbn [save_configs].
  destruct (cascadeSaveWithConfig _ doc s) as [[res [e|]] s1]; [done|].
  destruct (Nest _); [|apply IH].
  destruct (Find _ _ s1) as [[results [e|]] s2]; [done|].
  destruct (nested_loop rec _ _ results s2) as [[[e|] s3]|] eqn:E; [| |done].
  - by rewrite (nested_loop_mono _ _ _ _ _ _ _ Hrec E).
  - rewrite (nested_loop_mono _ _ _ _ _ _ _ Hrec E). apply IH.
Qed.

Lemma CascadeSave_fuel_S fuel collection doc s r :
  CascadeSave fuel collection doc s = Some r →
  CascadeSave (S fuel) collection doc s = Some r.
Proof.
  revert collection doc s r. induction fuel as [|fuel IH]; intros collection doc s r.
  - destruct doc as [d|]; [|done]. cbn [CascadeSave].
    by destruct (GetCascade d).
  - destruct doc as [d|]; [|done]. cbn [CascadeSave].
    destruct (GetCascade d) as [g|]; [|done].
    apply save_configs_mono. exact IH.
Qed.

(** A run of [CascadeSave] that ends within a nesting budget ends
    the same way, on the same store, within every larger one. *)
Theorem cascade_save_fuel_monotone fuel fuel' collection doc s r :
  (fuel ≤ fuel')%nat →
  CascadeSave fuel collection doc s = Some r →
  CascadeSave fuel' collection doc s = Some r.
Proof.
  induction 1 as [|fuel' _ IH]; [done|].
  intros H. by apply CascadeSave_fuel_S, IH.
Qed.

End CascadeRuns.

(** * The cascade on the reference store *)

Section StoreFacts.
Implicit Types (q rq d : bsonM) (p : string) (st : Mongo.store) (c : Collection).

Lemma docs_of_insert_ne c c' docs st :
  c ≠ c' → Mongo.docs_of c' (<[c := docs]> st) = Mongo.docs_of c' st.
Proof. intros H. unfold Mongo.docs_of. by rewrite lookup_insert_ne. Qed.

Lemma UpdateMany_docs c q u st :
  UpdateMany c q u st =
  (snd (fst (Mongo.update_docs q u (Mongo.docs_of c st))) ,
   snd (Mongo.update_docs q u (Mongo.docs_of c st)),
   <[c := fst (fst (Mongo.update_docs q u (Mongo.docs_of c st)))]> st).
Proof.
  cbn [UpdateMany Mongo.driver].
  by destruct (Mongo.update_docs q u (Mongo.docs_of c st)) as [[? ?] ?].
Qed.

(** An update leaves alone the documents its selector does not match,
    and keeps the documents of the collection in number and order. *)
Lemma update_docs_frame q u docs :
  Forall2 (λ d d', Mongo.matches q d = false → d' = d)
    docs (fst (fst (Mongo.update_docs q u docs))).
Proof.
  induction docs as [|d docs IH]; [constructor|].
  cbn [Mongo.update_docs]. destruct (Mongo.matches q d) eqn:Hm.
  - destruct (Mongo.apply_update u d) as [d'|].
    + destruct (Mongo.update_docs q u docs) as [[docs' r] e].
      constructor; [congruence|exact IH].
    + cbn. constructor; [done|]. by apply Forall_Forall2_diag, Forall_true.
  - destruct (Mongo.update_docs q u docs) as [[docs' r] e].
    constructor; [done|exact IH].
Qed.

Lemma update_docs_set q m docs :
  fst (fst (Mongo.update_docs q (U_set m) docs))
  = (λ d, if Mongo.matches q d then m ∪ d else d) <$> docs
  ∧ snd (Mongo.update_docs q (U_set m) docs) = None.
Proof.
  induction docs as [|d docs [IH1 IH2]]; [done|].
  cbn [Mongo.update_docs Mongo.apply_update fmap list_fmap].
  destruct (Mongo.update_docs q (U_set m) docs) as [[docs' r] e].
  cbn [fst snd] in *. subst. by destruct (Mongo.matches q d).
Qed.

Lemma update_docs_pull q p rq docs :
  Forall (λ d, array_or_absent p d = true) docs →
  fst (fst (Mongo.update_docs q (U_pull {[ p := rq ]}) docs))
  = (λ d, if Mongo.matches q d then pulled p rq d else d) <$> docs
  ∧ snd (Mongo.update_docs q (U_pull {[ p := rq ]}) docs) = None.
Proof.
  induction 1 as [|d docs Hd _ [IH1 IH2]]; [done|].
  cbn [Mongo.update_docs Mongo.apply_update fmap list_fmap].
  rewrite map_fold_singleton. unfold Mongo.pull_field, pulled, array_or_absent in *.
  cbn [mbind option_bind].
  destruct (Mongo.update_docs q (U_pull _) docs) as [[docs' r] e].
  cbn [fst snd] in *. subst.
  destruct (Mongo.matches q d); [|done].
  by destruct (d !! p) as [[]|].
Qed.

Lemma update_docs_push q p v docs :
  Forall (λ d, array_or_absent p d = true) docs →
  fst (fst (Mongo.update_docs q (U_push {[ p := v ]}) docs))
  = (λ d, if Mongo.matches q d then pushed p v d else d) <$> docs
  ∧ snd (Mongo.update_docs q (U_push {[ p := v ]}) docs) = None.
Proof.
  induction 1 as [|d docs Hd _ [IH1 IH2]]; [done|].
  cbn [Mongo.update_docs Mongo.apply_update fmap list_fmap].
  rewrite map_fold_singleton. unfold Mongo.push_field, pushed, array_or_absent in *.
  cbn [mbind option_bind].
  destruct (Mongo.update_docs q (U_push _) docs) as [[docs' r] e].
  cbn [fst snd] in *. subst.
  destruct (Mongo.matches q d); [|done].
  by destruct (d !! p) as [[]|].
Qed.

Lemma pulled_shape p rq d :
  array_or_absent p (pulled p rq d) = array_or_absent p d.
Proof.
  unfold pulled, array_or_absent. destruct (d !! p) as [[]|] eqn:E; rewrite ?E; try done.
  by rewrite lookup_insert_eq.
Qed.

Lemma pulled_idemp p rq d : pulled p rq (pulled p rq d) = pulled p rq d.
Proof.
  unfold pulled. destruct (d !! p) as [[]|] eqn:E; rewrite ?E; try done.
  rewrite lookup_insert_eq, insert_insert_eq. do 2 f_equal. clear E.
  induction l as [|e l IH]; [done|]. cbn [List.filter].
  destruct (Mongo.entry_matches rq e) eqn:He; cbn [negb List.filter]; [done|].
  by rewrite He, IH.
Qed.

Lemma matches_pulled q p rq d :
  q !! p = None → Mongo.matches q (pulled p rq d) = Mongo.matches q d.
Proof.
  intros Hq. unfold pulled. destruct (d !! p) as [[]|]; try done.
  by apply matches_insert_other.
Qed.

Lemma nullify_update_map conf : nullify_update conf = U_set (nullify_map conf).
Proof.
  unfold nullify_update, nullify_map.
  by destruct (0 <? String.length (ThroughProp conf))%nat.
Qed.

End StoreFacts.

Section StoreSave.
Implicit Types (q rq d : bsonM) (p : string) (st : Mongo.store) (c : Collection).

(** In the [REL_ONE] path that reaches the write of the embed, the call
    returns what that write returned, on the store the clean-up left. *)
Lemma cascadeSaveWithConfig_one {St} (D : Driver St) conf doc (s : St) :
  RelType conf = REL_ONE →
  stops_after_cleanup conf = false →
  let c := conf_Collection conf in
  let s1 :=
    if (0 <? size (OldQuery conf))%nat
    then snd (UpdateMany c (OldQuery conf) (nullify_update conf) s) else s in
  cascadeSaveWithConfig conf doc s = UpdateMany c (Query conf) (embed_update conf) s1.
Proof.
  intros Hrel Hstop. unfold cascadeSaveWithConfig, stops_after_cleanup in *.
  rewrite Hrel. cbn [Z.eqb REL_ONE]. fold (embed_update conf).
  destruct (0 <? size (OldQuery conf))%nat; cbn [andb] in Hstop; cbn zeta; [|done].
  rewrite Hstop. by destruct (UpdateMany _ (OldQuery conf) _ s) as [[? ?] ?].
Qed.

(** The store after a per-config save is the store after its operations. *)
Lemma cascadeSaveWithConfig_state {St} (D : Driver St) conf doc (s : St) :
  snd (cascadeSaveWithConfig conf doc s) = run_ops s (save_ops conf).
Proof.
  unfold cascadeSaveWithConfig, save_ops, stops_after_cleanup, run_ops.
  fold (pull_update conf) (push_update conf) (embed_update conf).
  destruct (RelType conf =? REL_ONE); [|destruct (RelType conf =? REL_MANY)];
    [| |done];
    destruct (0 <? size (OldQuery conf))%nat; cbn [andb app foldl run_op];
    try destruct (RemoveOnly conf); cbn [app foldl run_op];
    repeat match goal with
      | |- context [UpdateMany ?c ?q ?u s] =>
          destruct (UpdateMany c q u s) as [[? ?] ?]; cbn [fst snd]
      | |- context [UpdateMany ?c ?q ?u ?s'] =>
          is_var s'; destruct (UpdateMany c q u s') as [[? ?] ?]; cbn [fst snd]
      end; done.
Qed.

Lemma UpdateMany_set_docs c q m st :
  Mongo.docs_of c (snd (UpdateMany c q (U_set m) st))
  = (λ d, if Mongo.matches q d then m ∪ d else d) <$> Mongo.docs_of c st
  ∧ snd (fst (UpdateMany c q (U_set m) st)) = None.
Proof.
  rewrite UpdateMany_docs. cbn [fst snd]. rewrite docs_of_insert.
  apply update_docs_set.
Qed.

Lemma UpdateMany_pull_docs c q p rq st :
  Forall (λ d, array_or_absent p d = true) (Mongo.docs_of c st) →
  Mongo.docs_of c (snd (UpdateMany c q (U_pull {[ p := rq ]}) st))
  = (λ d, if Mongo.matches q d then pulled p rq d else d) <$> Mongo.docs_of c st
  ∧ snd (fst (UpdateMany c q (U_pull {[ p := rq ]}) st)) = None.
Proof.
  intros H. rewrite UpdateMany_docs. cbn [fst snd]. rewrite docs_of_insert.
  by apply update_docs_pull.
Qed.

Lemma UpdateMany_push_docs c q p v st :
  Forall (λ d, array_or_absent p d = true) (Mongo.docs_of c st) →
  Mongo.docs_of c (snd (UpdateMany c q (U_push {[ p := v ]}) st))
  = (λ d, if Mongo.matches q d then pushed p v d else d) <$> Mongo.docs_of c st
  ∧ snd (fst (UpdateMany c q (U_push {[ p := v ]}) st)) = None.
Proof.
  intros H. rewrite UpdateMany_docs. cbn [fst snd]. rewrite docs_of_insert.
  by apply update_docs_push.
Qed.

(** X9.  In the reference store, take a [REL_ONE] config with a through
    prop whose save does not stop after the clean-up ([RemoveOnly] false,
    or [OldQuery] empty) and whose [Query] and [OldQuery] do not select on
    [ThroughProp].  Its save returns no error, and it maps every document
    of the target collection independently: a document matching [Query]
    gets [Data] at [ThroughProp]; one matching only [OldQuery] (when set)
    gets [nil] there; every other document is as before. *)
Theorem one_save_moves_embed conf doc st :
  RelType conf = REL_ONE →
  (0 <? String.length (ThroughProp conf))%nat = true →
  stops_after_cleanup conf = false →
  Query conf !! ThroughProp conf = None →
  OldQuery conf !! ThroughProp conf = None →
  snd (fst (cascadeSaveWithConfig conf doc st)) = None
  ∧ Mongo.docs_of (conf_Collection conf) (snd (cascadeSaveWithConfig conf doc st))
    = one_saved conf <$> Mongo.docs_of (conf_Collection conf) st.
Proof.
  intros Hrel Htp Hstop Hq Hoq.
  rewrite cascadeSaveWithConfig_one by done. cbn zeta.
  unfold embed_update. rewrite nullify_update_map. unfold nullify_map. rewrite Htp.
  set (c := conf_Collection conf). set (tp := ThroughProp conf) in *.
  unfold stops_after_cleanup in Hstop.
  destruct (0 <? size (OldQuery conf))%nat eqn:Hold.
  - destruct (UpdateMany_set_docs c (OldQuery conf) {[ tp := VNil ]} st) as [H1 _].
    destruct (UpdateMany_set_docs c (Query conf) {[ tp := Data conf ]}
                (snd (UpdateMany c (OldQuery conf) (U_set {[ tp := VNil ]}) st)))
      as [H2 H3].
    split; [done|]. rewrite H2, H1, <- list_fmap_compose.
    apply list_fmap_ext. intros i d _. cbn. unfold one_saved, old_owner.
    fold tp. rewrite Hold. cbn [andb].
    destruct (Mongo.matches (OldQuery conf) d) eqn:Hmo.
    + rewrite <- insert_union_singleton_l, matches_insert_other by done.
      destruct (Mongo.matches (Query conf) d); [|done].
      by rewrite <- insert_union_singleton_l, insert_insert_eq.
    + destruct (Mongo.matches (Query conf) d); [|done].
      by rewrite <- insert_union_singleton_l.
  - destruct (UpdateMany_set_docs c (Query conf) {[ tp := Data conf ]} st) as [H2 H3].
    split; [done|]. rewrite H2. apply list_fmap_ext. intros i d _.
    unfold one_saved, old_owner. fold tp. rewrite Hold. cbn [andb].
    destruct (Mongo.matches (Query conf) d); [|done].
    by rewrite <- insert_union_singleton_l.
Qed.

End StoreSave.

Section StoreMore.
Implicit Types (q rq d : bsonM) (p : string) (st : Mongo.store) (c : Collection).

(** A pass that returned no error applied the update to every document
    its selector matches, and left the others alone. *)
Lemma update_docs_ok q u docs docs' r :
  Mongo.update_docs q u docs = (docs', r, None) →
  Forall2 (λ d d', if Mongo.matches q d then Mongo.apply_update u d = Some d'
                   else d' = d) docs docs'.
Proof.
  revert docs' r. induction docs as [|d docs IH]; intros docs' r H.
  - cbn in H. injection H as <- _. constructor.
  - cbn [Mongo.update_docs] in H. destruct (Mongo.matches q d) eqn:Hm.
    + destruct (Mongo.apply_update u d) as [d1|] eqn:Hd; [|done].
      destruct (Mongo.update_docs q u docs) as [[docs1 r1] e1].
      injection H as <- _ ->. constructor; [by rewrite Hm|by eapply IH].
    + destruct (Mongo.update_docs q u docs) as [[docs1 r1] e1].
      injection H as <- _ ->. constructor; [by rewrite Hm|by eapply IH].
Qed.

Lemma Forall2_elem_of_r {A B} (R : A → B → Prop) l k y :
  Forall2 R l k → y ∈ k → ∃ x, x ∈ l ∧ R x y.
Proof.
  induction 1 as [|x y' l k Hxy _ IH]; intros Hy.
  - by apply elem_of_nil in Hy.
  - apply elem_of_cons in Hy as [->|Hy].
    + exists x. split; [left|done].
    + destruct (IH Hy) as (x' & ? & ?). exists x'. split; [by right|done].
Qed.

Lemma list_to_map_field (fs : list (string * value)) k :
  (list_to_map fs : bsonM) !! k = Mongo.field k fs.
Proof.
  unfold Mongo.field. induction fs as [|[k' v'] fs IH]; [done|].
  cbn [list_to_map foldr List.find fst]. destruct (String.eqb_spec k' k) as [->|Hne].
  - by rewrite lookup_insert_eq.
  - by rewrite lookup_insert_ne.
Qed.

(** X10.  After the save of a [REL_ONE] config that wrote the embed and
    returned no error, every document of the target collection matching
    [Query] holds [Data]: at [ThroughProp] when there is one, else field by
    field at its root, [Data] being a document. *)
Theorem one_save_owner_holds_data conf doc st r st' :
  RelType conf = REL_ONE →
  stops_after_cleanup conf = false →
  cascadeSaveWithConfig conf doc st = (r, None, st') →
  ∀ d, d ∈ Mongo.docs_of (conf_Collection conf) st' →
       Mongo.matches (Query conf) d = true →
       if (0 <? String.length (ThroughProp conf))%nat
       then d !! ThroughProp conf = Some (Data conf)
       else ∃ fs, Data conf = VDoc fs
                  ∧ ∀ k v, Mongo.field k fs = Some v → d !! k = Some v.
Proof.
  intros Hrel Hstop Hsave d Hd Hm.
  rewrite cascadeSaveWithConfig_one in Hsave by done. cbn zeta in Hsave.
  set (s1 := if (0 <? size (OldQuery conf))%nat then _ else _) in Hsave.
  rewrite UpdateMany_docs in Hsave.
  destruct (Mongo.update_docs (Query conf) (embed_update conf)
              (Mongo.docs_of (conf_Collection conf) s1)) as [[docs' r'] e'] eqn:Hup.
  cbn [fst snd] in Hsave. injection Hsave as _ -> <-.
  rewrite docs_of_insert in Hd.
  destruct (Forall2_elem_of_r _ _ _ _ (update_docs_ok _ _ _ _ _ Hup) Hd)
    as (d0 & _ & Hrel0).
  destruct (Mongo.matches (Query conf) d0) eqn:Hm0; [|congruence].
  unfold embed_update in Hrel0.
  destruct (0 <? String.length (ThroughProp conf))%nat.
  - cbn in Hrel0. injection Hrel0 as <-.
    by rewrite <- insert_union_singleton_l, lookup_insert_eq.
  - cbn in Hrel0. destruct (Data conf) as [| | | |fs|]; try done.
    injection Hrel0 as <-. exists fs. split; [done|]. intros k v Hk.
    apply lookup_union_Some_l. by rewrite list_to_map_field.
Qed.

Lemma matches_pushed q p v d :
  q !! p = None → Mongo.matches q (pushed p v d) = Mongo.matches q d.
Proof.
  intros Hq. unfold pushed. destruct (d !! p) as [[]|]; by apply matches_insert_other.
Qed.

Lemma many_save_moves_entry_aux conf doc st :
  RelType conf = REL_MANY →
  stops_after_cleanup conf = false →
  Query conf !! ThroughProp conf = None →
  OldQuery conf !! ThroughProp conf = None →
  Forall (λ d, array_or_absent (ThroughProp conf) d = true)
    (Mongo.docs_of (conf_Collection conf) st) →
  snd (fst (cascadeSaveWithConfig conf doc st)) = None
  ∧ Mongo.docs_of (conf_Collection conf) (snd (cascadeSaveWithConfig conf doc st))
    = many_saved conf <$> Mongo.docs_of (conf_Collection conf) st.
Proof.
  intros Hrel Hstop Hq Hoq Hshape.
  rewrite cascadeSaveWithConfig_many by done. cbn zeta.
  unfold pull_update, push_update.
  set (c := conf_Collection conf). set (tp := ThroughProp conf) in *.
  set (rq := reference_q (ReferenceQuery conf)).
  set (s1 := if (0 <? size (OldQuery conf))%nat then _ else _).
  assert (H1 : Mongo.docs_of c s1
               = (λ d, if old_owner conf d then pulled tp rq d else d)
                   <$> Mongo.docs_of c st).
  { unfold s1, old_owner. destruct (0 <? size (OldQuery conf))%nat; cbn [andb].
    - by destruct (UpdateMany_pull_docs c (OldQuery conf) tp rq st Hshape) as [-> _].
    - by rewrite list_fmap_id. }
  assert (Hshape1 : Forall (λ d, array_or_absent tp d = true) (Mongo.docs_of c s1)).
  { rewrite H1, Forall_fmap. eapply Forall_impl; [exact Hshape|].
    intros d Hd. cbn. destruct (old_owner conf d); [by rewrite pulled_shape|done]. }
  destruct (UpdateMany_pull_docs c (Query conf) tp rq s1 Hshape1) as [H2 _].
  assert (Hshape2 : Forall (λ d, array_or_absent tp d = true)
                      (Mongo.docs_of c (snd (UpdateMany c (Query conf)
                                               (U_pull {[ tp := rq ]}) s1)))).
  { rewrite H2, Forall_fmap. eapply Forall_impl; [exact Hshape1|].
    intros d Hd. cbn. destruct (Mongo.matches _ d); [by rewrite pulled_shape|done]. }
  destruct (UpdateMany_push_docs c (Query conf) tp (Data conf) _ Hshape2) as [H3 H4].
  split; [done|]. rewrite H3, H2, H1, <- !list_fmap_compose.
  apply list_fmap_ext. intros i d _. cbn. unfold many_saved. fold tp rq.
  destruct (old_owner conf d);
    rewrite ?matches_pulled by done;
    destruct (Mongo.matches (Query conf) d) eqn:Hm;
    rewrite ?matches_pulled, ?Hm, ?pulled_idemp by done; done.
Qed.

(** X11.  In the reference store, take a [REL_MANY] config whose save
    does not stop after the clean-up ([RemoveOnly] false, or [OldQuery]
    empty) and whose [Query] and [OldQuery] do not select on
    [ThroughProp], and a store in which every document of the target
    collection has an array or nothing at [ThroughProp].  The save returns
    no error, and it maps every document independently: a document
    matching [Query] loses the entries matching [ReferenceQuery] and gets
    [Data] appended; one matching only [OldQuery] (when set) loses the
    matching entries; every other document is as before. *)
Theorem many_save_moves_entry conf doc st :
  RelType conf = REL_MANY →
  stops_after_cleanup conf = false →
  Query conf !! ThroughProp conf = None →
  OldQuery conf !! ThroughProp conf = None →
  Forall (λ d, array_or_absent (ThroughProp conf) d = true)
    (Mongo.docs_of (conf_Collection conf) st) →
  snd (fst (cascadeSaveWithConfig conf doc st)) = None
  ∧ Mongo.docs_of (conf_Collection conf) (snd (cascadeSaveWithConfig conf doc st))
    = many_saved conf <$> Mongo.docs_of (conf_Collection conf) st.
Proof. apply many_save_moves_entry_aux. Qed.

Lemma delete_clears_owners_aux conf st :
  valid_RelType conf →
  (RelType conf = REL_MANY →
   Forall (λ d, array_or_absent (ThroughProp conf) d = true)
     (Mongo.docs_of (conf_Collection conf) st)) →
  snd (fst (cascadeDeleteWithConfig conf st)) = None
  ∧ Mongo.docs_of (conf_Collection conf) (snd (cascadeDeleteWithConfig conf st))
    = deleted conf <$> Mongo.docs_of (conf_Collection conf) st.
Proof.
  intros Hvalid Hshape. unfold cascadeDeleteWithConfig, deleted.
  destruct Hvalid as [Hrel|Hrel]; rewrite Hrel; cbn [Z.eqb REL_ONE REL_MANY].
  - rewrite nullify_update_map.
    destruct (UpdateMany_set_docs (conf_Collection conf) (Query conf)
                (nullify_map conf) st) as [H1 H2].
    by split.
  - destruct (UpdateMany_pull_docs (conf_Collection conf) (Query conf)
                (ThroughProp conf) (reference_q (ReferenceQuery conf)) st
                (Hshape Hrel)) as [H1 H2].
    by split.
Qed.

(** X12.  In the reference store, the delete of a config with a valid
    relation type cannot fail (for [REL_MANY], when every document of the
    target collection has an array or nothing at [ThroughProp]), and it
    maps every document independently: a document matching [Query] gets
    [nil] at [ThroughProp], or at each of [Properties] when there is no
    through prop ([REL_ONE]), or loses the entries matching
    [ReferenceQuery] ([REL_MANY]); every other document is as before. *)
Theorem delete_clears_owners conf st :
  valid_RelType conf →
  (RelType conf = REL_MANY →
   Forall (λ d, array_or_absent (ThroughProp conf) d = true)
     (Mongo.docs_of (conf_Collection conf) st)) →
  snd (fst (cascadeDeleteWithConfig conf st)) = None
  ∧ Mongo.docs_of (conf_Collection conf) (snd (cascadeDeleteWithConfig conf st))
    = deleted conf <$> Mongo.docs_of (conf_Collection conf) st.
Proof. apply delete_clears_owners_aux. Qed.

Lemma pulled_no_match p rq d l :
  pulled p rq d !! p = Some (VArr l) →
  List.filter (Mongo.entry_matches rq) l = [].
Proof.
  unfold pulled. destruct (d !! p) as [x|] eqn:E; [|by rewrite E].
  assert (Hfilter : ∀ l0, List.filter (Mongo.entry_matches rq)
                     (List.filter (λ e, negb (Mongo.entry_matches rq e)) l0) = []).
  { induction l0 as [|e l0 IH]; [done|]. cbn [List.filter].
    destruct (Mongo.entry_matches rq e) eqn:He; cbn [negb]; [done|].
    cbn [List.filter]. by rewrite He. }
  destruct x; rewrite ?E, ?lookup_insert_eq; intros H; try done.
  injection H as <-. apply Hfilter.
Qed.

Lemma pulled_pushed_array p rq v d :
  ∃ l, pulled p rq (pushed p v d) !! p = Some (VArr l).
Proof.
  unfold pushed. destruct (d !! p) as [[]|]; unfold pulled;
    rewrite lookup_insert_eq, lookup_insert_eq; by eexists.
Qed.

Lemma pushed_shape p v d : array_or_absent p (pushed p v d) = true.
Proof.
  unfold pushed, array_or_absent.
  destruct (d !! p) as [[]|]; by rewrite lookup_insert_eq.
Qed.

(** X13.  Save, then delete, with the same [REL_MANY] config in the
    reference store, under the conditions of the save: the save does not
    stop after the clean-up ([RemoveOnly] false, or [OldQuery] empty),
    [Query] and [OldQuery] do not select on [ThroughProp], and every
    document of the target collection has an array or nothing at
    [ThroughProp] before the save.  Then neither call returns an error,
    and afterwards every document of the target collection matching
    [Query] has an array at [ThroughProp] none of whose entries matches
    [ReferenceQuery]. *)
Theorem delete_undoes_many_save conf doc st :
  RelType conf = REL_MANY →
  stops_after_cleanup conf = false →
  Query conf !! ThroughProp conf = None →
  OldQuery conf !! ThroughProp conf = None →
  Forall (λ d, array_or_absent (ThroughProp conf) d = true)
    (Mongo.docs_of (conf_Collection conf) st) →
  let st1 := snd (cascadeSaveWithConfig conf doc st) in
  let st2 := snd (cascadeDeleteWithConfig conf st1) in
  snd (fst (cascadeSaveWithConfig conf doc st)) = None
  ∧ snd (fst (cascadeDeleteWithConfig conf st1)) = None
  ∧ ∀ d, d ∈ Mongo.docs_of (conf_Collection conf) st2 →
         Mongo.matches (Query conf) d = true →
         ∃ l, d !! ThroughProp conf = Some (VArr l)
              ∧ List.filter (Mongo.entry_matches (reference_q (ReferenceQuery conf))) l
                = [].
Proof.
  intros Hrel Hstop Hq Hoq Hshape st1 st2.
  destruct (many_save_moves_entry_aux conf doc st Hrel Hstop Hq Hoq Hshape)
    as [Hs1 Hdocs1].
  fold st1 in Hdocs1.
  assert (Hshape1 : Forall (λ d, array_or_absent (ThroughProp conf) d = true)
                      (Mongo.docs_of (conf_Collection conf) st1)).
  { rewrite Hdocs1, Forall_fmap. eapply Forall_impl; [exact Hshape|].
    intros d Hd. cbn. unfold many_saved.
    destruct (Mongo.matches _ d); [apply pushed_shape|].
    destruct (old_owner conf d); [by rewrite pulled_shape|done]. }
  destruct (delete_clears_owners_aux conf st1 (or_intror Hrel) (λ _, Hshape1))
    as [Hs2 Hdocs2].
  fold st2 in Hdocs2. split; [done|]. split; [done|].
  intros d Hd Hm. rewrite Hdocs2, Hdocs1, <- list_fmap_compose in Hd.
  apply list_elem_of_fmap in Hd as (d0 & -> & _). cbn in *.
  unfold deleted in *. rewrite Hrel in *. cbn [Z.eqb REL_MANY REL_ONE] in *.
  destruct (Mongo.matches (Query conf) (many_saved conf d0)) eqn:Hm1.
  - unfold many_saved in *.
    destruct (Mongo.matches (Query conf) d0) eqn:Hm0.
    + destruct (pulled_pushed_array (ThroughProp conf)
                  (reference_q (ReferenceQuery conf)) (Data conf)
                  (pulled (ThroughProp conf) (reference_q (ReferenceQuery conf)) d0))
        as [l Hl].
      exists l. split; [exact Hl|]. by eapply pulled_no_match.
    + destruct (old_owner conf d0).
      * rewrite matches_pulled in Hm1 by done. congruence.
      * congruence.
  - congruence.
Qed.

End StoreMore.

Section StoreFrame.
Implicit Types (q rq d : bsonM) (p : string) (st : Mongo.store) (c : Collection).

Lemma UpdateMany_frame c q u st :
  (∀ c', c ≠ c' →
     Mongo.docs_of c' (snd (UpdateMany c q u st)) = Mongo.docs_of c' st)
  ∧ Forall2 (λ d d', Mongo.matches q d = false → d' = d)
      (Mongo.docs_of c st) (Mongo.docs_of c (snd (UpdateMany c q u st))).
Proof.
  rewrite UpdateMany_docs. cbn [snd]. split.
  - intros c' Hne. by apply docs_of_insert_ne.
  - rewrite docs_of_insert. apply update_docs_frame.
Qed.

(** Updates of one collection, each selecting by [q1] or by [q2], leave
    the other collections alone, and in that collection the documents that
    neither selector matches. *)
Lemma run_ops_frame c q1 q2 ops st :
  Forall (λ o, ∃ q u, o = Op_UpdateMany c q u ∧ (q = q1 ∨ q = q2)) ops →
  (∀ c', c ≠ c' → Mongo.docs_of c' (run_ops st ops) = Mongo.docs_of c' st)
  ∧ Forall2 (λ d d', Mongo.matches q1 d = false → Mongo.matches q2 d = false → d' = d)
      (Mongo.docs_of c st) (Mongo.docs_of c (run_ops st ops)).
Proof.
  intros Hops. revert st. induction Hops as [|o ops (q & u & -> & Hq) _ IH]; intros st.
  - split; [done|]. by apply Forall_Forall2_diag, Forall_true.
  - unfold run_ops. cbn [foldl run_op].
    destruct (UpdateMany_frame c q u st) as [Hother Hsame].
    destruct (IH (snd (UpdateMany c q u st))) as [IHother IHsame].
    split.
    + intros c' Hne. unfold run_ops in IHother. by rewrite IHother, Hother.
    + eapply Forall2_trans; [|exact Hsame|exact IHsame].
      intros d0 d1 d2 H01 H12 Hm1 Hm2. cbn in *.
      assert (d1 = d0) as -> by (destruct Hq as [->| ->]; auto).
      auto.
Qed.

Lemma save_ops_shape conf :
  Forall (λ o, ∃ q u, o = Op_UpdateMany (conf_Collection conf) q u
                      ∧ (q = Query conf ∨ q = OldQuery conf)) (save_ops conf).
Proof.
  unfold save_ops.
  destruct (RelType conf =? REL_ONE); [|destruct (RelType conf =? REL_MANY)];
    [| |constructor];
    destruct (0 <? size (OldQuery conf))%nat;
    destruct (stops_after_cleanup conf); cbn [app];
    repeat constructor; eauto.
Qed.

Lemma delete_ops_shape conf :
  Forall (λ o, ∃ q u, o = Op_UpdateMany (conf_Collection conf) q u
                      ∧ (q = Query conf ∨ q = Query conf)) (delete_ops conf).
Proof.
  unfold delete_ops.
  destruct (RelType conf =? REL_ONE); [|destruct (RelType conf =? REL_MANY)];
    repeat constructor; eauto.
Qed.

Lemma cascadeDeleteWithConfig_state {St} (D : Driver St) conf (s : St) :
  snd (cascadeDeleteWithConfig conf s) = run_ops s (delete_ops conf).
Proof.
  unfold cascadeDeleteWithConfig, delete_ops, run_ops.
  fold (pull_update conf).
  by destruct (RelType conf =? REL_ONE); [|destruct (RelType conf =? REL_MANY)].
Qed.

(** X14.  In the reference store, whatever the config and whether or not
    its updates fail, a per-config save changes nothing outside the target
    collection, keeps the documents of the target collection in number and
    order, and leaves alone every document that matches neither [Query] nor
    [OldQuery]; a per-config delete likewise leaves alone every document
    that does not match [Query]. *)
Theorem cascade_touches_only_owners conf doc st :
  let c := conf_Collection conf in
  let saved := snd (cascadeSaveWithConfig conf doc st) in
  let removed := snd (cascadeDeleteWithConfig conf st) in
  (∀ c', c ≠ c' →
     Mongo.docs_of c' saved = Mongo.docs_of c' st
     ∧ Mongo.docs_of c' removed = Mongo.docs_of c' st)
  ∧ Forall2 (λ d d', Mongo.matches (Query conf) d = false →
                     Mongo.matches (OldQuery conf) d = false → d' = d)
      (Mongo.docs_of c st) (Mongo.docs_of c saved)
  ∧ Forall2 (λ d d', Mongo.matches (Query conf) d = false → d' = d)
      (Mongo.docs_of c st) (Mongo.docs_of c removed).
Proof.
  intros c saved removed. unfold saved, removed.
  rewrite cascadeSaveWithConfig_state, cascadeDeleteWithConfig_state.
  destruct (run_ops_frame c _ _ _ st (save_ops_shape conf)) as [Hs1 Hs2].
  destruct (run_ops_frame c _ _ _ st (delete_ops_shape conf)) as [Hd1 Hd2].
  split; [|split].
  - intros c' Hne. split; [by apply Hs1|by apply Hd1].
  - exact Hs2.
  - eapply Forall2_impl; [exact Hd2|]. cbn. auto.
Qed.

End StoreFrame.

(** * Further properties of the projector *)

Lemma split_dot_concat s : String.concat "." (split_dot s) = s.
Proof.
  induction s as [|c s IH]; [done|]. cbn [split_dot].
  pose proof (split_dot_length s) as Hlen.
  destruct (Ascii.eqb_spec c ".") as [->|Hc].
  - destruct (split_dot s) as [|hd tl]; [cbn in Hlen; lia|].
    cbn [String.concat]. cbn. by rewrite <- IH.
  - destruct (split_dot s) as [|hd tl]; [cbn in Hlen; lia|].
    rewrite <- IH. by destruct tl.
Qed.

Lemma split_dot_inj p q : split_dot p = split_dot q → p = q.
Proof. intros H. by rewrite <- (split_dot_concat p), H, split_dot_concat. Qed.

Lemma split_dot_snoc prop :
  split_dot prop
  = List.removelast (split_dot prop) ++ [List.last (split_dot prop) EmptyString].
Proof.
  apply List.app_removelast_last. pose proof (split_dot_length prop) as H.
  destruct (split_dot prop); [cbn in H; lia|done].
Qed.

Lemma get_nested_cons k rest data :
  rest ≠ [] →
  get_nested (k :: rest) data
  = match data !! k with
    | Some (PMap mapped) => get_nested rest mapped
    | _ => None
    end.
Proof. by destruct rest. Qed.

Lemma get_nested_empty path : get_nested path ∅ = None.
Proof.
  destruct path as [|k [|k' rest]]; [done|apply lookup_empty|].
  rewrite get_nested_cons by done. by rewrite lookup_empty.
Qed.

Lemma snoc_not_nil {A} (l : list A) x : l ++ [x] ≠ [].
Proof. by destruct l. Qed.

Section SetNested.
Implicit Types (split path : list string) (data : gmap string pvalue).

Lemma set_nested_get split actualProp val data data' :
  set_nested split actualProp val data = Projected data' →
  get_nested (split ++ [actualProp]) data' = Some (PVal val).
Proof.
  revert data data'. induction split as [|s split IH]; intros data data' H.
  - cbn in H. injection H as <-. cbn. by rewrite lookup_insert_eq.
  - cbn [set_nested] in H. cbn [app].
    rewrite get_nested_cons by apply snoc_not_nil.
    destruct (data !! s) as [[x|mapped]|]; [done| |].
    + destruct (set_nested split actualProp val mapped) as [m'|] eqn:E; [|done].
      injection H as <-. rewrite lookup_insert_eq. by eapply IH.
    + destruct (set_nested split actualProp val ∅) as [m'|] eqn:E; [|done].
      injection H as <-. rewrite lookup_insert_eq. by eapply IH.
Qed.

Lemma set_nested_below split actualProp val data data' below :
  set_nested split actualProp val data = Projected data' →
  below ≠ [] →
  get_nested ((split ++ [actualProp]) ++ below) data' = None.
Proof.
  revert data data'. induction split as [|s split IH]; intros data data' H Hb.
  - cbn in H. injection H as <-. cbn [app].
    rewrite get_nested_cons by done. by rewrite lookup_insert_eq.
  - cbn [set_nested] in H. cbn [app].
    rewrite get_nested_cons by (rewrite <- app_assoc; apply snoc_not_nil || by destruct split).
    destruct (data !! s) as [[x|mapped]|]; [done| |].
    + destruct (set_nested split actualProp val mapped) as [m'|] eqn:E; [|done].
      injection H as <-. rewrite lookup_insert_eq. by eapply IH.
    + destruct (set_nested split actualProp val ∅) as [m'|] eqn:E; [|done].
      injection H as <-. rewrite lookup_insert_eq. by eapply IH.
Qed.

Lemma set_nested_above split actualProp val data data' path :
  set_nested split actualProp val data = Projected data' →
  path ≠ [] →
  path `prefix_of` split →
  ∃ mapped, get_nested path data' = Some (PMap mapped).
Proof.
  revert data data' path.
  induction split as [|s split IH]; intros data data' path H Hne Hpre.
  - apply prefix_nil_inv in Hpre. done.
  - destruct path as [|k path]; [done|].
    pose proof (prefix_cons_inv_1 _ _ _ _ Hpre) as ->.
    apply prefix_cons_inv_2 in Hpre. cbn [set_nested] in H.
    assert (Hin : ∀ mapped m',
              set_nested split actualProp val mapped = Projected m' →
              ∃ mapped', get_nested (s :: path) (<[s := PMap m']> data)
                         = Some (PMap mapped')).
    { intros mapped m' E. destruct path as [|k' path].
      - cbn. rewrite lookup_insert_eq. by eexists.
      - rewrite get_nested_cons by done. rewrite lookup_insert_eq.
        by eapply IH. }
    destruct (data !! s) as [[x|mapped]|]; [done| |].
    + destruct (set_nested split actualProp val mapped) as [m'|] eqn:E; [|done].
      injection H as <-. by eapply Hin.
    + destruct (set_nested split actualProp val ∅) as [m'|] eqn:E; [|done].
      injection H as <-. by eapply Hin.
Qed.

Lemma set_nested_frame split actualProp val data data' path :
  set_nested split actualProp val data = Projected data' →
  ¬ path `prefix_of` split ++ [actualProp] →
  ¬ split ++ [actualProp] `prefix_of` path →
  get_nested path data' = get_nested path data.
Proof.
  revert data data' path.
  induction split as [|s split IH]; intros data data' path H Hn1 Hn2.
  - cbn in H. injection H as <-. cbn [app] in *.
    destruct path as [|k path]; [by destruct Hn1; apply prefix_nil|].
    assert (k ≠ actualProp) as Hk.
    { intros ->. apply Hn2. apply (prefix_app [actualProp] [] path), prefix_nil. }
    destruct path as [|k' path].
    + cbn. by rewrite lookup_insert_ne.
    + rewrite !get_nested_cons by done. by rewrite lookup_insert_ne.
  - cbn [set_nested] in H. cbn [app] in *.
    destruct path as [|k path]; [by destruct Hn1; apply prefix_nil|].
    assert (Hcase : ∀ m' old,
              (∀ path', ¬ path' `prefix_of` split ++ [actualProp] →
                        ¬ split ++ [actualProp] `prefix_of` path' →
                        get_nested path' m' = get_nested path' old) →
              (data !! s = Some (PMap old) ∨ data !! s = None ∧ old = ∅) →
              get_nested (k :: path) (<[s := PMap m']> data)
              = get_nested (k :: path) data).
    { intros m' old Hrec Hold. destruct (decide (k = s)) as [->|Hk].
      - destruct path as [|k' path].
        + destruct Hn1. apply (prefix_app [s] [] _), prefix_nil.
        + rewrite !get_nested_cons by done. rewrite lookup_insert_eq.
          rewrite Hrec.
          * destruct Hold as [->|[-> ->]]; [done|by rewrite get_nested_empty].
          * intros Hp. apply Hn1. by apply prefix_cons.
          * intros Hp. apply Hn2. by apply prefix_cons.
      - destruct path as [|k' path].
        + cbn. by rewrite lookup_insert_ne.
        + rewrite !get_nested_cons by done. by rewrite lookup_insert_ne. }
    destruct (data !! s) as [[x|mapped]|] eqn:Hs; [done| |].
    + destruct (set_nested split actualProp val mapped) as [m'|] eqn:E; [|done].
      injection H as <-. apply (Hcase m' mapped); [|by left].
      intros path' ? ?. by eapply IH.
    + destruct (set_nested split actualProp val ∅) as [m'|] eqn:E; [|done].
      injection H as <-. apply (Hcase m' ∅); [|by right].
      intros path' ? ?. by eapply IH.
Qed.

Lemma conflicts_witness split data :
  conflicts split data = true →
  ∃ path x, path ≠ [] ∧ path `prefix_of` split ∧ get_nested path data = Some (PVal x).
Proof.
  revert data. induction split as [|s split IH]; intros data H; [done|].
  cbn [conflicts] in H. destruct (data !! s) as [[x|mapped]|] eqn:Hs; [| |done].
  - exists [s], x. split; [done|]. split; [|done].
    apply (prefix_app [s] [] split), prefix_nil.
  - destruct (IH _ H) as (path & x & Hne & Hpre & Hget).
    exists (s :: path), x. split; [done|]. split; [by apply prefix_cons|].
    rewrite get_nested_cons by done. by rewrite Hs.
Qed.

End SetNested.

Lemma elem_of_snoc_cons {A} (l l' : list A) x y : y ∈ l ++ [x] → y ∈ l ++ x :: l'.
Proof.
  rewrite !elem_of_app, !elem_of_cons. intros [?|[?|?]]; auto.
  by apply elem_of_nil in H.
Qed.

Section ProjectorMore.
Variable dotaccess_Get : Document → string → value * option error.
Implicit Types (data : gmap string pvalue) (doc : Document).

(** Both branches of the loop body are one walk: for a path without a
    dot the walk is empty and the leaf key is the path itself. *)
Lemma project_prop_walk doc data prop :
  project_prop dotaccess_Get doc data prop
  = set_nested (List.removelast (split_dot prop))
      (List.last (split_dot prop) EmptyString)
      (fst (dotaccess_Get doc prop)) data.
Proof.
  destruct (has_dot prop) eqn:Hdot; [by apply project_prop_multi|].
  unfold project_prop. by rewrite split_dot_no_dot.
Qed.

Lemma project_prop_get doc data data' prop :
  project_prop dotaccess_Get doc data prop = Projected data' →
  get_nested (split_dot prop) data' = Some (PVal (fst (dotaccess_Get doc prop)))
  ∧ ∀ below, below ≠ [] → get_nested (split_dot prop ++ below) data' = None.
Proof.
  rewrite project_prop_walk. intros H. pose proof (split_dot_snoc prop) as Hs.
  set (walk := List.removelast (split_dot prop)) in *.
  set (leaf := List.last (split_dot prop) EmptyString) in *. rewrite Hs.
  split; [by eapply set_nested_get|]. intros below Hb. by eapply set_nested_below.
Qed.

(** X15.  Once a path has been projected, the map holds the resolved
    value at the end of that path, whatever was there before, and nothing
    below it: the write of the leaf does not look at what it replaces, so a
    nested map built for an earlier, longer path is lost. *)
Theorem projected_path_holds_value doc data data' prop :
  project_prop dotaccess_Get doc data prop = Projected data' →
  get_nested (split_dot prop) data' = Some (PVal (fst (dotaccess_Get doc prop)))
  ∧ ∀ below, below ≠ [] → get_nested (split_dot prop ++ below) data' = None.
Proof. apply project_prop_get. Qed.

Lemma project_prop_frame doc data data' prop path :
  project_prop dotaccess_Get doc data prop = Projected data' →
  ¬ path `prefix_of` split_dot prop →
  ¬ split_dot prop `prefix_of` path →
  get_nested path data' = get_nested path data.
Proof.
  rewrite project_prop_walk. intros H. pose proof (split_dot_snoc prop) as Hs.
  set (walk := List.removelast (split_dot prop)) in *.
  set (leaf := List.last (split_dot prop) EmptyString) in *. rewrite Hs.
  by eapply set_nested_frame.
Qed.

(** X16.  Projecting a path leaves alone whatever the map holds at the
    end of every path that parts ways with it (neither is made of the
    first segments of the other). *)
Theorem projected_path_keeps_others doc data data' prop path :
  project_prop dotaccess_Get doc data prop = Projected data' →
  ¬ path `prefix_of` split_dot prop →
  ¬ split_dot prop `prefix_of` path →
  get_nested path data' = get_nested path data.
Proof. apply project_prop_frame. Qed.

(** After the projection of a path, a resolved value sits at the end of
    that path, or where one sat before. *)
Lemma projected_values doc data data' prop path x :
  project_prop dotaccess_Get doc data prop = Projected data' →
  get_nested path data' = Some (PVal x) →
  path = split_dot prop ∨ get_nested path data = Some (PVal x).
Proof.
  intros H Hget.
  destruct (decide (path = split_dot prop)) as [|Hne]; [by left|]. right.
  destruct (decide (split_dot prop `prefix_of` path)) as [[below ->]|Hn2].
  { destruct (project_prop_get doc data data' prop H) as [_ Hbelow].
    rewrite Hbelow in Hget; [done|]. intros ->. by rewrite app_nil_r in Hne. }
  destruct (decide (path `prefix_of` split_dot prop)) as [Hpre|Hn1].
  { exfalso. rewrite project_prop_walk in H.
    destruct path as [|k path]; [done|].
    rewrite (split_dot_snoc prop) in Hpre, Hne.
    destruct Hpre as [rest Hrest].
    destruct (List.exists_last (l := rest)) as (rest' & last' & ->).
    { intros ->. rewrite app_nil_r in Hrest. by rewrite Hrest in Hne. }
    rewrite app_assoc in Hrest. apply app_inj_tail in Hrest as [Hrest _].
    destruct (set_nested_above _ _ _ _ _ (k :: path) H) as [m Hm]; [done| |].
    - exists rest'. exact Hrest.
    - congruence. }
  by rewrite <- (project_prop_frame doc data data' prop path H).
Qed.

Lemma project_prop_step doc done data prop :
  projected_so_far dotaccess_Get doc done data →
  prefix_free (done ++ [prop]) →
  ∃ data', project_prop dotaccess_Get doc data prop = Projected data'
           ∧ projected_so_far dotaccess_Get doc (done ++ [prop]) data'.
Proof.
  intros [Hheld Honly] Hfree.
  assert (Hok : ∃ data', project_prop dotaccess_Get doc data prop = Projected data').
  { rewrite project_prop_walk. apply set_nested_no_conflict.
    destruct (conflicts _ data) eqn:Hc; [|done]. exfalso.
    destruct (conflicts_witness _ _ Hc) as (path & x & Hne & Hpre & Hget).
    destruct (Honly _ _ Hget) as (p & Hp & Hsplit). subst path.
    assert (p = prop) as ->.
    { apply Hfree; [set_solver|set_solver|].
      rewrite (split_dot_snoc prop). by apply prefix_app_r. }
    apply prefix_length in Hpre.
    pose proof (f_equal length (split_dot_snoc prop)) as Hlen.
    rewrite length_app in Hlen. cbn in Hlen. lia. }
  destruct Hok as [data' Hdata']. exists data'. split; [done|].
  destruct (project_prop_get doc data data' prop Hdata') as [Hval _].
  split.
  - intros p Hp. apply elem_of_app in Hp as [Hp|Hp].
    + destruct (decide (p = prop)) as [->|Hne]; [done|].
      rewrite (project_prop_frame doc data data' prop (split_dot p) Hdata').
      * by apply Hheld.
      * intros Hpre. apply Hne. apply Hfree; [set_solver|set_solver|done].
      * intros Hpre. apply Hne. symmetry. apply Hfree; [set_solver|set_solver|done].
    + apply list_elem_of_singleton in Hp as ->. done.
  - intros path x Hget.
    destruct (projected_values doc data data' prop path x Hdata' Hget) as [->|Hold].
    + exists prop. split; [set_solver|done].
    + destruct (Honly _ _ Hold) as (p & ? & ?). exists p. split; [set_solver|done].
Qed.

Lemma project_props_steps doc properties done data :
  projected_so_far dotaccess_Get doc done data →
  prefix_free (done ++ properties) →
  ∃ data', project_props dotaccess_Get doc properties data = Projected data'
           ∧ projected_so_far dotaccess_Get doc (done ++ properties) data'.
Proof.
  revert done data. induction properties as [|prop properties IH];
    intros done data Hinv Hfree.
  - exists data. by rewrite app_nil_r.
  - cbn [project_props].
    destruct (project_prop_step doc done data prop Hinv) as (data1 & -> & Hinv1).
    { intros p q Hp Hq. apply Hfree; by apply elem_of_snoc_cons. }
    destruct (IH (done ++ [prop]) data1 Hinv1) as (data' & Hdata' & Hinv').
    { by rewrite <- app_assoc. }
    exists data'. split; [done|]. by rewrite <- app_assoc in Hinv'.
Qed.

(** X17.  When no listed path stops where another goes on, the projector
    does not panic: it returns a map that holds, at the end of every listed
    path, the value resolved for it, and resolved values nowhere else. *)
Theorem prefix_free_projection doc properties :
  prefix_free properties →
  ∃ data,
    MapFromCascadeProperties dotaccess_Get properties doc = Projected data
    ∧ (∀ p, p ∈ properties →
            get_nested (split_dot p) data
            = Some (PVal (fst (dotaccess_Get doc p))))
    ∧ (∀ path x, get_nested path data = Some (PVal x) →
                 ∃ p, p ∈ properties ∧ split_dot p = path).
Proof.
  intros Hfree.
  destruct (project_props_steps doc properties [] ∅) as (data & Hdata & Hinv).
  - split; [intros p Hp; by apply elem_of_nil in Hp|].
    intros path x Hget. by rewrite get_nested_empty in Hget.
  - done.
  - exists data. split; [done|]. exact Hinv.
Qed.

End ProjectorMore.

(** * Save, DeleteDocument, FindOne and the validators *)

Section PersistFacts.
Import Persist.

(** X18.  [Save] returns nil exactly when validation and [BeforeSave]
    pass, the document is new or has an id, the upsert returns no error and
    [AfterSave] passes.  The upsert is issued exactly when the first two
    hold, so an [AfterSave] error is returned with the document already
    upserted; the cascade is launched as soon as the first holds. *)
Theorem save_returns_nil_iff c doc upsert :
  let stale :=
    negb (match IsNew doc with Some b => b | None => true end) && id_IsZero doc in
  (fst (Save c doc upsert) = None
   ↔ PreSave c doc = None ∧ stale = false ∧ upsert = None
     ∧ run_hook (AfterSave doc) c = None)
  ∧ (UpsertId c upsert ∈ snd (Save c doc upsert)
     ↔ PreSave c doc = None ∧ stale = false)
  ∧ (Go_CascadeSave c (document doc) ∈ snd (Save c doc upsert)
     ↔ PreSave c doc = None).
Proof.
  intros stale. unfold Save. fold stale.
  destruct (PreSave c doc) as [e|]; [|destruct stale; [|destruct upsert as [e|]]];
    cbn [fst snd app]; rewrite ?elem_of_cons, ?elem_of_nil;
    intuition (try discriminate; try congruence).
Qed.

(** X19.  [DeleteDocument] returns nil exactly when [BeforeDelete]
    passes, [DeleteOne] returns no error and [AfterDelete] passes.
    [DeleteOne] is issued exactly when [BeforeDelete] passes, and the
    cascade is launched exactly when [DeleteOne] then succeeds: also when
    [AfterDelete] goes on to fail. *)
Theorem delete_returns_nil_iff c doc deleteOne :
  (fst (DeleteDocument c doc deleteOne) = None
   ↔ run_hook (BeforeDelete doc) c = None ∧ deleteOne = None
     ∧ run_hook (AfterDelete doc) c = None)
  ∧ (DeleteOne c deleteOne ∈ snd (DeleteDocument c doc deleteOne)
     ↔ run_hook (BeforeDelete doc) c = None)
  ∧ (Go_CascadeDelete c (document doc) ∈ snd (DeleteDocument c doc deleteOne)
     ↔ run_hook (BeforeDelete doc) c = None ∧ deleteOne = None).
Proof.
  unfold DeleteDocument.
  destruct (run_hook (BeforeDelete doc) c) as [e|]; [|destruct deleteOne as [e|]];
    cbn [fst snd]; rewrite ?elem_of_cons, ?elem_of_nil;
    intuition (try discriminate; try congruence).
Qed.

End PersistFacts.

Section LifecycleFacts.
Import Lifecycle.

(** X20.  What [Save] does to a document embedding [DocumentBase].  It
    returns the error of the event model of [Save].  When [PreSave] fails
    the document is untouched.  Otherwise, whatever happens next,
    [UpdatedAt] is the time of the call, [CreatedAt] is too when the
    document was new, and a new document without an id has got a fresh one;
    the document stops being new only when [Save] returns nil; the upsert,
    unless skipped for a document that is not new and has no id, is made
    under the id the document then has.  [DeletedAt] is never touched. *)
Theorem save_marks_document c hooks d now fresh upsert :
  let err := fst (fst (Save c hooks d now fresh upsert)) in
  let d' := snd (fst (Save c hooks d now fresh upsert)) in
  let upserted := snd (Save c hooks d now fresh upsert) in
  err = fst (Persist.Save c (with_base hooks d) upsert)
  ∧ DeletedAt d' = DeletedAt d
  ∧ (Persist.PreSave c (with_base hooks d) ≠ None → d' = d ∧ upserted = None)
  ∧ (Persist.PreSave c (with_base hooks d) = None →
     UpdatedAt d' = now
     ∧ CreatedAt d' = (if IsNew d then now else CreatedAt d)
     ∧ ID d' = (if IsNew d && IsZero (ID d) then fresh else ID d)
     ∧ IsNew d' = (IsNew d && bool_decide (err ≠ None))
     ∧ upserted = (if negb (IsNew d) && IsZero (ID d) then None else Some (ID d'))).
Proof.
  intros err d' upserted. unfold err, d', upserted, Save, Persist.Save.
  destruct (Persist.PreSave c (with_base hooks d)) as [e|]; [done|].
  cbn [with_base Persist.IsNew Persist.id_IsZero Persist.AfterSave].
  destruct d as [id created del updated ex]. unfold IsNew, GetID. cbn -[IsZero].
  destruct ex; cbn -[IsZero]; destruct (IsZero id); cbn -[IsZero];
    destruct upsert as [e|]; cbn -[IsZero];
    destruct (Persist.run_hook (Persist.AfterSave hooks) c); cbn -[IsZero];
    repeat split; done.
Qed.

(** X21.  A new document without an id whose upsert fails keeps the
    fresh id it was given and is still new: the next [Save] does not
    generate another id, it upserts under the same one. *)
Theorem failed_upsert_keeps_id c hooks d now fresh e now' fresh' upsert' :
  IsNew d = true →
  IsZero (ID d) = true →
  IsZero fresh = false →
  Persist.PreSave c (with_base hooks d) = None →
  let d1 := snd (fst (Save c hooks d now fresh (Some e))) in
  ID d1 = fresh ∧ IsNew d1 = true
  ∧ snd (Save c hooks d1 now' fresh' upsert') = Some fresh
  ∧ ID (snd (fst (Save c hooks d1 now' fresh' upsert'))) = fresh.
Proof.
  intros Hnew Hzero Hfresh Hpre d1.
  assert (Hpre' : ∀ x, Persist.PreSave c (with_base hooks x) = None)
    by (intros x; exact Hpre).
  unfold d1, Save. rewrite !Hpre'.
  destruct d as [id created del updated ex]. unfold IsNew, GetID in *.
  cbn -[IsZero] in *. apply negb_true_iff in Hnew. subst ex.
  cbn -[IsZero]. rewrite Hzero. cbn -[IsZero]. rewrite Hfresh. cbn -[IsZero].
  destruct upsert' as [e'|]; cbn -[IsZero]; [done|].
  by destruct (Persist.run_hook (Persist.AfterSave hooks) c).
Qed.

(** X22.  [FindOne] decodes nothing into the document: whatever it
    returns, the id and the three times of the document are as before.  It
    returns nil exactly when [Find] returned no error, the cursor had a
    result and [AfterFind] passed, and only then is the document marked as
    not new; in every other case the document is untouched. *)
Theorem find_one_decodes_nothing afterFind results findErr d :
  let err := fst (FindOne afterFind results findErr d) in
  let d' := snd (FindOne afterFind results findErr d) in
  ID d' = ID d ∧ CreatedAt d' = CreatedAt d ∧ UpdatedAt d' = UpdatedAt d
  ∧ DeletedAt d' = DeletedAt d
  ∧ (err = None
     ↔ findErr = None ∧ pending results ≠ O
       ∧ Persist.run_hook afterFind (rs_Collection results) = None)
  ∧ (err = None → d' = SetIsNew false d)
  ∧ (err ≠ None → d' = d).
Proof.
  intros err d'. unfold err, d', FindOne, Next.
  destruct findErr as [e|]; cbn;
    [intuition (try discriminate; try congruence)|].
  destruct (pending results) as [|n]; cbn.
  - destruct (cursorErr results); cbn; [|destruct (Error results); cbn];
      intuition (try discriminate; try congruence).
  - destruct (Persist.run_hook afterFind (rs_Collection results)); cbn;
      intuition (try discriminate; try congruence).
Qed.

Lemma find_Id_struct_fields own d :
  Forall (λ f, fst f ≠ "Id"%string) own →
  List.find (λ f, String.eqb (fst f) "Id") (struct_fields own d) = None.
Proof.
  intros Hown. unfold struct_fields. induction Hown as [|[k v] own Hk _ IH]; [done|].
  cbn [app List.find fst]. destruct (String.eqb_spec k "Id"); [done|exact IH].
Qed.

End LifecycleFacts.

Lemma delete_configs_returns {St} (D : Driver St) confs doc (s : St) :
  Forall (λ conf, ReferenceQuery conf ≠ []) confs →
  ∃ s1, delete_configs confs doc s = (Returned, s1).
Proof.
  intros Hall. revert s. induction Hall as [|conf confs Hrq _ IH]; intros s.
  - by eexists.
  - cbn [delete_configs]. destruct (ReferenceQuery conf) as [|rf rq] eqn:E; [done|].
    cbn [length Nat.eqb]. destruct (cascadeDeleteWithConfig conf s) as [[res e] s1].
    apply IH.
Qed.

(** X23.  A document type that embeds [DocumentBase], whose id field is
    [ID], and has no field of its own named [Id], cannot be given the
    default reference: [CascadeDelete] panics with "No such field: Id in
    obj" at the first config without a [ReferenceQuery], after the configs
    before it and without the ones after it. *)
Theorem document_base_delete_panics {St} (D : Driver St) collection own d
    getCascade pre conf post (s : St) :
  Forall (λ f, fst f ≠ "Id"%string) own →
  getCascade collection = pre ++ conf :: post →
  Forall (λ conf, ReferenceQuery conf ≠ []) pre →
  ReferenceQuery conf = [] →
  ∃ s1,
    delete_configs pre (Lifecycle.as_document own d (Some getCascade)) s = (Returned, s1)
    ∧ CascadeDelete collection (Lifecycle.as_document own d (Some getCascade)) s
      = (Panicked "No such field: Id in obj"%string, s1).
Proof.
  intros Hown Hsplit Hpre Hrq.
  destruct (delete_configs_returns D pre
              (Lifecycle.as_document own d (Some getCascade)) s Hpre) as [s1 Hs1].
  exists s1. split; [done|]. unfold CascadeDelete. cbn [GetCascade Lifecycle.as_document].
  rewrite Hsplit, delete_configs_app, Hs1. cbn [delete_configs].
  rewrite Hrq. cbn [length Nat.eqb]. unfold reflections_GetField.
  cbn [fields Lifecycle.as_document]. by rewrite find_Id_struct_fields.
Qed.

(** X24.  [ValidateInclusionIn] is membership in the options: true
    exactly when the value is one of them, false for no options. *)
Theorem validate_inclusion_iff value options :
  ValidateInclusionIn value options = true ↔ value ∈ options.
Proof.
  unfold ValidateInclusionIn. induction options as [|b options IH].
  - split; [done|]. intros H. by apply elem_of_nil in H.
  - cbn [stringInSlice]. rewrite elem_of_cons.
    destruct (String.eqb_spec b value) as [->|Hne].
    + split; [by left|done].
    + rewrite IH. split; [by right|]. intros [->|?]; done.
Qed.

(** X25.  [ValidateMongoIdRef] never returns true: it returns false when
    [Find] fails, when the cursor holds an error, and when the cursor is
    not nil; with no error and a nil cursor it dereferences the nil
    cursor. *)
Theorem validate_mongo_id_ref_never_true cur err :
  ValidateMongoIdRef cur err ≠ Projected true
  ∧ (ValidateMongoIdRef cur err = Projected false ↔ err ≠ None ∨ cur ≠ None).
Proof.
  unfold ValidateMongoIdRef. destruct err as [e|], cur as [[e'|]|];
    (split; [done|]); split; try done; auto; intros [?|?]; done.
Qed.

(** X26.  [Connect] turns every panic of the driver into a returned
    error.  It returns nil exactly when [mongo.NewClient] and the client's
    [Connect] both return without error, and only then is the session set,
    to that client; otherwise the session is as before. *)
Theorem connect_sets_session_iff {Client : Type} (session : option Client)
    newClient connect :
  (fst (Connection.Connect session newClient connect) = None
   ↔ ∃ client, newClient = Connection.Ret (client, None)
               ∧ connect client = Connection.Ret None
               ∧ snd (Connection.Connect session newClient connect) = Some client)
  ∧ (fst (Connection.Connect session newClient connect) ≠ None →
     snd (Connection.Connect session newClient connect) = session).
Proof.
  unfold Connection.Connect.
  destruct newClient as [[client [e|]]|v]; cbn.
  - split; [|done]. split; [done|]. by intros (? & ? & _).
  - destruct (connect client) as [[e|]|v] eqn:Hc; cbn.
    + split; [|done]. split; [done|]. intros (client' & [= <-] & ? & _). congruence.
    + split; [|done]. split; [|done]. intros _. by exists client.
    + split; [|done]. split; [done|]. intros (client' & [= <-] & ? & _). congruence.
  - split; [|done]. split; [done|]. by intros (? & ? & _).
Qed.

(** * Instances *)

Lemma invalid_relation_type_issues_nothing_witness :
  cascadeSaveWithConfig (D := logged Mongo.driver) Fixtures.cascadeBroken
    Fixtures.child (Fixtures.store0, [])
  = ((UpdateResult_zero, Some "invalid relation type"%string), (Fixtures.store0, []))
  ∧ cascadeDeleteWithConfig (D := logged Mongo.driver) Fixtures.cascadeBroken
      (Fixtures.store0, [])
    = ((UpdateResult_zero, Some "invalid relation type"%string), (Fixtures.store0, [])).
Proof.
  apply (invalid_relation_type_issues_nothing Mongo.driver Fixtures.cascadeBroken
           Fixtures.child Fixtures.store0 []); discriminate.
Defined.

Lemma cleanup_error_is_dropped_witness :
  cascadeSaveWithConfig (D := Fixtures.pull_fails) Examples.movedMulti Fixtures.child
    Fixtures.store0
  = UpdateMany (Driver := Fixtures.pull_fails) Fixtures.parents (Fixtures.byID "p1")
      (push_update Examples.movedMulti) Fixtures.store0.
Proof.
  refine (cleanup_error_is_dropped Fixtures.pull_fails Examples.movedMulti
            Fixtures.child Fixtures.store0 UpdateResult_zero
            "connection reset by peer"%string Fixtures.store0 _ _ _ _);
    [by right|reflexivity..].
Defined.

Lemma remove_only_is_the_cleanup_witness :
  cascadeSaveWithConfig (D := Mongo.driver)
    (Fixtures.cascadeMulti (Fixtures.byID "p2") true) Fixtures.child Fixtures.store0
  = UpdateMany (Driver := Mongo.driver) Fixtures.parents (Fixtures.byID "p2")
      (pull_update (Fixtures.cascadeMulti (Fixtures.byID "p2") true)) Fixtures.store0.
Proof.
  refine (remove_only_is_the_cleanup Mongo.driver
            (Fixtures.cascadeMulti (Fixtures.byID "p2") true)
            Fixtures.child Fixtures.store0 _ _ _);
    [by right|reflexivity..].
Defined.

Lemma cascade_delete_runs_every_config_witness :
  ∃ s',
    CascadeDelete (D := logged Mongo.driver) Fixtures.parents
      (Fixtures.with_Id Examples.three_configs) (Fixtures.store0, [])
    = (Returned,
       (s', [] ++ flat_map (λ conf, delete_ops (default_reference conf (VObjectID "c1")))
                    Examples.three_configs)).
Proof.
  apply (cascade_delete_runs_every_config Mongo.driver Fixtures.parents
           (Fixtures.with_Id Examples.three_configs) (λ _, Examples.three_configs)
           (VObjectID "c1") Fixtures.store0 []);
    [reflexivity|left; reflexivity].
Defined.

Lemma cascade_save_runs_every_config_witness :
  CascadeSave (D := logged Examples.accepting) 1 Fixtures.parents
    (Some Fixtures.child) (tt, [])
  = Some (None,
          (tt,
           [] ++ flat_map (λ conf, save_ops (default_reference conf (VObjectID "c1")))
                   [Fixtures.cascadeSingle ∅ false; Fixtures.cascadeMulti ∅ false])).
Proof.
  refine (cascade_save_runs_every_config Examples.accepting 0 Fixtures.parents
            Fixtures.child (λ _, _) tt [] eq_refl _ _).
  - by intros c q u s.
  - constructor; [split; [reflexivity|by left]|].
    constructor; [split; [reflexivity|by right]|]. constructor.
Defined.

Lemma nested_loop_counts_results_witness :
  nested_loop (CascadeSave (D := Mongo.driver) 1) Fixtures.parents
    (Some Fixtures.child) [Fixtures.parent1; Fixtures.parent2] Fixtures.store0
  = repeat_cascade (CascadeSave (D := Mongo.driver) 1) Fixtures.parents
      (Some Fixtures.child) 2 Fixtures.store0.
Proof.
  apply nested_loop_counts_results. reflexivity.
Defined.

Lemma after_find_error_ends_nesting_witness :
  nested_loop (CascadeSave (D := Mongo.driver) 1) Fixtures.parents
    (Some Examples.unfindable) [Fixtures.parent1; Fixtures.parent2] Fixtures.store0
  = Some (None, Fixtures.store0).
Proof.
  refine (after_find_error_ends_nesting _ Fixtures.parents
            Examples.unfindable _ "after find failed"%string _ Fixtures.store0 _ _);
    reflexivity.
Defined.

Lemma cascade_save_returns_when_shallow_witness :
  ∃ r, ∀ fuel,
    CascadeSave (D := Mongo.driver) (S fuel) Fixtures.parents (Some Fixtures.child)
      Fixtures.store0 = Some r.
Proof.
  refine (cascade_save_returns_when_shallow Mongo.driver Fixtures.parents
            Fixtures.child (λ _, _) Fixtures.store0 eq_refl _).
  constructor; [by left|]. constructor; [by left|]. constructor.
Defined.

Lemma one_save_moves_embed_witness :
  snd (fst (cascadeSaveWithConfig (D := Mongo.driver) Examples.movedSingle
              Fixtures.child Fixtures.store0)) = None
  ∧ Mongo.docs_of Fixtures.parents
      (snd (cascadeSaveWithConfig (D := Mongo.driver) Examples.movedSingle
              Fixtures.child Fixtures.store0))
    = one_saved Examples.movedSingle <$> Mongo.docs_of Fixtures.parents Fixtures.store0.
Proof.
  apply (one_save_moves_embed Examples.movedSingle Fixtures.child Fixtures.store0);
    reflexivity.
Defined.

Lemma one_save_owner_holds_data_witness :
  let owner : bsonM := <["child" := Fixtures.ref]> Fixtures.parent1 in
  owner !! "child" = Some Fixtures.ref.
Proof.
  intros owner.
  refine (one_save_owner_holds_data Examples.movedSingle Fixtures.child
            Fixtures.store0
            (fst (fst (cascadeSaveWithConfig (D := Mongo.driver) Examples.movedSingle
                         Fixtures.child Fixtures.store0)))
            (snd (cascadeSaveWithConfig (D := Mongo.driver) Examples.movedSingle
                    Fixtures.child Fixtures.store0))
            _ _ _ owner _ _);
    try reflexivity.
  assert (Hdocs : Mongo.docs_of Fixtures.parents
                    (snd (cascadeSaveWithConfig (D := Mongo.driver)
                            Examples.movedSingle Fixtures.child Fixtures.store0))
                  = [owner; <["child" := VNil]> Fixtures.parent2]) by reflexivity.
  change (owner ∈ Mongo.docs_of Fixtures.parents
                    (snd (cascadeSaveWithConfig (D := Mongo.driver)
                            Examples.movedSingle Fixtures.child Fixtures.store0))).
  rewrite Hdocs. apply list_elem_of_here.
Defined.

Lemma store0_shaped :
  Forall (λ d, array_or_absent "children" d = true)
    (Mongo.docs_of Fixtures.parents Fixtures.store0).
Proof. repeat constructor. Qed.

Lemma many_save_moves_entry_witness :
  snd (fst (cascadeSaveWithConfig (D := Mongo.driver) Examples.movedMulti
              Fixtures.child Fixtures.store0)) = None
  ∧ Mongo.docs_of Fixtures.parents
      (snd (cascadeSaveWithConfig (D := Mongo.driver) Examples.movedMulti
              Fixtures.child Fixtures.store0))
    = many_saved Examples.movedMulti <$> Mongo.docs_of Fixtures.parents Fixtures.store0.
Proof.
  apply (many_save_moves_entry Examples.movedMulti Fixtures.child Fixtures.store0);
    try reflexivity.
  exact store0_shaped.
Defined.

Lemma saved_store_shaped :
  Forall (λ d, array_or_absent "children" d = true)
    (Mongo.docs_of Fixtures.parents
       (snd (cascadeSaveWithConfig (D := Mongo.driver) Examples.movedMulti
               Fixtures.child Fixtures.store0))).
Proof. vm_compute. repeat constructor. Qed.

Lemma delete_clears_owners_witness :
  let st1 := snd (cascadeSaveWithConfig (D := Mongo.driver) Examples.movedMulti
                    Fixtures.child Fixtures.store0) in
  Mongo.docs_of Fixtures.parents st1
  = [<["children" := VArr [Fixtures.ref]]> Fixtures.parent1; Fixtures.parent2]
  ∧ snd (fst (cascadeDeleteWithConfig (D := Mongo.driver) Examples.movedMulti st1))
    = None
  ∧ Mongo.docs_of Fixtures.parents
      (snd (cascadeDeleteWithConfig (D := Mongo.driver) Examples.movedMulti st1))
    = deleted Examples.movedMulti <$> Mongo.docs_of Fixtures.parents st1.
Proof.
  intros st1. split; [reflexivity|].
  apply (delete_clears_owners Examples.movedMulti st1);
    [by right|intros _; exact saved_store_shaped].
Defined.

Lemma delete_undoes_many_save_witness :
  let st1 := snd (cascadeSaveWithConfig (D := Mongo.driver) Examples.movedMulti
                    Fixtures.child Fixtures.store0) in
  let st2 := snd (cascadeDeleteWithConfig (D := Mongo.driver) Examples.movedMulti st1) in
  snd (fst (cascadeDeleteWithConfig (D := Mongo.driver) Examples.movedMulti st1)) = None
  ∧ Mongo.docs_of Fixtures.parents st2
    = [<["children" := VArr []]> Fixtures.parent1; Fixtures.parent2].
Proof.
  intros st1 st2. split; [|reflexivity].
  refine (proj1 (proj2 (delete_undoes_many_save Examples.movedMulti Fixtures.child
                          Fixtures.store0 _ _ _ _ _)));
    try reflexivity.
  exact store0_shaped.
Defined.

Lemma projected_path_holds_value_witness :
  let before := nest ["b"; "c"] "d" (VStr "z") in
  let after := nest ["b"] "c" (VStr "y") in
  get_nested ["b"; "c"; "d"] before = Some (PVal (VStr "z"))
  ∧ project_prop get_dotted Fixtures.nested before "b.c" = Projected after
  ∧ get_nested ["b"; "c"] after = Some (PVal (VStr "y"))
  ∧ ∀ below, below ≠ [] → get_nested (["b"; "c"] ++ below) after = None.
Proof.
  intros before after. split; [reflexivity|]. split; [reflexivity|].
  apply (projected_path_holds_value get_dotted Fixtures.nested before after "b.c").
  reflexivity.
Defined.

Lemma projected_path_keeps_others_witness :
  get_nested ["a"]
    (<["b" := PMap {[ "c" := PVal (VStr "y") ]}]> {[ "a" := PVal (VStr "x") ]})
  = get_nested ["a"] {[ "a" := PVal (VStr "x") ]}.
Proof.
  refine (projected_path_keeps_others get_dotted Fixtures.nested
            {[ "a" := PVal (VStr "x") ]} _ "b.c" ["a"] _ _ _).
  - reflexivity.
  - intros [k Hk]. discriminate Hk.
  - intros [k Hk]. discriminate Hk.
Defined.

Lemma prefix_free_example : prefix_free ["a"; "b.c"]%string.
Proof.
  intros p q Hp Hq Hpre.
  apply elem_of_cons in Hp as [->|Hp]; [|apply list_elem_of_singleton in Hp as ->];
    (apply elem_of_cons in Hq as [->|Hq]; [|apply list_elem_of_singleton in Hq as ->]);
    try done; destruct Hpre as [k Hk]; discriminate Hk.
Qed.

Lemma prefix_free_projection_witness :
  ∃ data,
    MapFromCascadeProperties get_dotted ["a"; "b.c"] Fixtures.nested = Projected data
    ∧ (∀ p, p ∈ ["a"; "b.c"]%string →
            get_nested (split_dot p) data
            = Some (PVal (fst (get_dotted Fixtures.nested p))))
    ∧ (∀ path x, get_nested path data = Some (PVal x) →
                 ∃ p, p ∈ ["a"; "b.c"]%string ∧ split_dot p = path).
Proof.
  apply (prefix_free_projection get_dotted Fixtures.nested ["a"; "b.c"]%string).
  exact prefix_free_example.
Defined.

Lemma failed_upsert_keeps_id_witness :
  let d1 := snd (fst (Lifecycle.Save Fixtures.children Examples.no_hooks
                        Examples.fresh_base 10 "5f0000000000000000000001"
                        (Some "write failed"%string))) in
  Lifecycle.ID d1 = "5f0000000000000000000001"%string
  ∧ Lifecycle.IsNew d1 = true
  ∧ snd (Lifecycle.Save Fixtures.children Examples.no_hooks d1 20
           "5f0000000000000000000002" None)
    = Some "5f0000000000000000000001"%string
  ∧ Lifecycle.ID (snd (fst (Lifecycle.Save Fixtures.children Examples.no_hooks d1 20
                              "5f0000000000000000000002" None)))
    = "5f0000000000000000000001"%string.
Proof.
  apply (failed_upsert_keeps_id Fixtures.children Examples.no_hooks
           Examples.fresh_base 10 "5f0000000000000000000001"
           "write failed"%string 20 "5f0000000000000000000002" None);
    reflexivity.
Defined.

Lemma document_base_delete_panics_witness :
  ∃ s1,
    delete_configs (D := Mongo.driver) [Fixtures.cascadeMulti ∅ false]
      (Lifecycle.as_document [("Name", VStr "Foo McGoo")] Examples.fresh_base
         (Some (λ _, [Fixtures.cascadeMulti ∅ false; Fixtures.cascadeSingle ∅ false])))
      Fixtures.store0 = (Returned, s1)
    ∧ CascadeDelete (D := Mongo.driver) Fixtures.parents
        (Lifecycle.as_document [("Name", VStr "Foo McGoo")] Examples.fresh_base
           (Some (λ _, [Fixtures.cascadeMulti ∅ false; Fixtures.cascadeSingle ∅ false])))
        Fixtures.store0
      = (Panicked "No such field: Id in obj"%string, s1).
Proof.
  apply (document_base_delete_panics Mongo.driver Fixtures.parents
           [("Name", VStr "Foo McGoo")] Examples.fresh_base
           (λ _, [Fixtures.cascadeMulti ∅ false; Fixtures.cascadeSingle ∅ false])
           [Fixtures.cascadeMulti ∅ false] (Fixtures.cascadeSingle ∅ false) []
           Fixtures.store0).
  - repeat constructor. discriminate.
  - reflexivity.
  - repeat constructor. discriminate.
  - reflexivity.
Defined.
